(** * Narwhal: NFS read/write locks (src/narwhal.c)

    A shallow embedding of the lock protocol of [narwhal.c]: the state-file
    codec ([parse_client_states], [dump_client_states]), the request engine
    ([request_lock], [remove_lock]), the filesystem mutex ([exclusive_lock],
    [exclusive_unlock]) and the public retry loops ([narwhal_read_lock],
    [narwhal_write_lock], [narwhal_unlock]).

    The process-wide buffers of the C code ([client_states],
    [n_client_states], [granted_state], [client_states_changed]) become the
    explicit record [Parsed] returned by the parser and consumed by the
    engine.  Files are [option string] ([None]: the file does not exist).
    [time(NULL)] is an explicit argument of each function that calls it, and
    so is the outcome of each system call and of [dump_client_states].
    Assertions ([assert]) are modelled as an abort ([None]). *)

From Stdlib Require Import String Ascii ZArith List Bool Lia.
Import ListNotations.
Open Scope Z_scope.

(** ** Data model *)

(** [typedef struct { ... } ClientState;] *)
Record ClientState := mkClientState {
  is_write_lock : bool;
  is_granted : bool;
  time : Z;
  host_name : string;
  pid : string
}.

Definition set_host_name (cs : ClientState) (h : string) : ClientState :=
  mkClientState cs.(is_write_lock) cs.(is_granted) cs.(time) h cs.(pid).
Definition set_pid (cs : ClientState) (p : string) : ClientState :=
  mkClientState cs.(is_write_lock) cs.(is_granted) cs.(time) cs.(host_name) p.
Definition set_is_write_lock (cs : ClientState) (w : bool) : ClientState :=
  mkClientState w cs.(is_granted) cs.(time) cs.(host_name) cs.(pid).
Definition set_is_granted (cs : ClientState) (g : bool) : ClientState :=
  mkClientState cs.(is_write_lock) g cs.(time) cs.(host_name) cs.(pid).
Definition set_time (cs : ClientState) (t : Z) : ClientState :=
  mkClientState cs.(is_write_lock) cs.(is_granted) t cs.(host_name) cs.(pid).

(** Contents of a slot of the [client_states] buffer before it is written. *)
Definition empty_slot : ClientState := mkClientState false false 0 "" "".

(** errno values (Linux). *)
Definition ENOTSUP : Z := 95.
Definition ENFILE : Z := 23.
Definition ETIMEDOUT : Z := 110.

(** ** Characters and numbers *)

Definition char_code (c : ascii) : Z := Z.of_nat (nat_of_ascii c).

(** The separators [parse_client_states] overwrites with NUL. *)
Definition is_sep (c : ascii) : bool :=
  (char_code c =? 32) || (char_code c =? 10).

(** C [isspace] in the "C" locale, skipped by [atoll]. *)
Definition is_space (c : ascii) : bool :=
  (char_code c =? 32) || ((9 <=? char_code c) && (char_code c <=? 13)).

Definition is_digit (c : ascii) : bool :=
  (48 <=? char_code c) && (char_code c <=? 57).

Definition digit_val (c : ascii) : Z := char_code c - 48.

Fixpoint skip_spaces (s : string) : string :=
  match s with
  | String c s' => if is_space c then skip_spaces s' else s
  | EmptyString => s
  end.

Fixpoint read_digits (s : string) (acc : Z) : Z :=
  match s with
  | String c s' => if is_digit c then read_digits s' (acc * 10 + digit_val c) else acc
  | EmptyString => acc
  end.

(** [atoll]: leading white space, an optional sign, then decimal digits. *)
Definition atoll (s : string) : Z :=
  match skip_spaces s with
  | String c s' =>
      if char_code c =? 45 then - read_digits s' 0
      else if char_code c =? 43 then read_digits s' 0
      else read_digits (String c s') 0
  | EmptyString => 0
  end.

(** Decimal digits of a non-negative number, most significant first
    ([fuel] bounds the number of digits). *)
Fixpoint digits_of (fuel : nat) (n : Z) : list Z :=
  match fuel with
  | O => []
  | S f => if n <? 10 then [n] else digits_of f (n / 10) ++ [n mod 10]
  end.

Definition digit_char (d : Z) : ascii := ascii_of_nat (Z.to_nat (48 + d)).

Definition show_nonneg (n : Z) : string :=
  string_of_list_ascii (map digit_char (digits_of (S (Z.to_nat (Z.log2 n))) n)).

(** [printf("%lld", z)]. *)
Definition show_Z (z : Z) : string :=
  if z <? 0 then String "-" (show_nonneg (- z)) else show_nonneg z.

(** ** Serializer: [dump_client_states] *)

Definition mode_char (is_write : bool) : string := if is_write then "W" else "R".
Definition status_char (granted : bool) : string := if granted then "G" else "P".

(** One [fprintf(state_fp, "%s %s %c %c %lld\n", ...)]. *)
Definition format_client_state (cs : ClientState) : string :=
  cs.(host_name) ++ " " ++ cs.(pid) ++ " " ++ mode_char cs.(is_write_lock) ++ " "
  ++ status_char cs.(is_granted) ++ " " ++ show_Z cs.(time) ++ String (ascii_of_nat 10) "".

Fixpoint dump_client_states (l : list ClientState) : string :=
  match l with
  | [] => ""
  | cs :: r => format_client_state cs ++ dump_client_states r
  end.

(** ** Parser: [parse_client_states] *)

(** The text split at every space and line break; the field loop of
    the parser stops at the first empty field (two consecutive NULs), which
    for a text ending in a line break is the piece after the last one.
    (The state file is only written by [dump_client_states] and holds no
    NUL byte.) *)
Fixpoint split_fields (s : string) (cur : list ascii) : list string :=
  match s with
  | EmptyString => [string_of_list_ascii (rev cur)]
  | String c s' =>
      if is_sep c then string_of_list_ascii (rev cur) :: split_fields s' []
      else split_fields s' (c :: cur)
  end.

Fixpoint take_nonempty (l : list string) : list string :=
  match l with
  | [] => []
  | EmptyString :: _ => []
  | t :: r => t :: take_nonempty r
  end.

Definition state_fields (text : string) : list string :=
  take_nonempty (split_fields text []).

(** The parser's loop state: the kept entries (most recent first), the slot
    [next_client_state] is filling, the index of the slot [granted_state]
    points to, [client_states_changed] and [field_index % 5]. *)
Record PState := mkPState {
  ps_kept : list ClientState;
  ps_slot : ClientState;
  ps_granted : option nat;
  ps_changed : bool;
  ps_field : nat
}.

(** One iteration of the [switch (field_index++ % 5)].  After a kept entry
    [next_client_state++] moves to the next slot, whose old contents are
    never read before being overwritten (see [parse_client_states]). *)
Definition parse_field (first_fresh_time : Z) (ps : PState) (tok : string) : option PState :=
  let '(mkPState kept slot granted changed field) := ps in
  match field with
  | 0%nat => Some (mkPState kept (set_host_name slot tok) granted changed 1)
  | 1%nat => Some (mkPState kept (set_pid slot tok) granted changed 2)
  | 2%nat =>
      match tok with
      | String c EmptyString =>
          if char_code c =? 82 then Some (mkPState kept (set_is_write_lock slot false) granted changed 3)
          else if char_code c =? 87 then Some (mkPState kept (set_is_write_lock slot true) granted changed 3)
          else None
      | _ => None
      end
  | 3%nat =>
      match tok with
      | String c EmptyString =>
          if char_code c =? 80 then Some (mkPState kept (set_is_granted slot false) granted changed 4)
          else if char_code c =? 71 then
            Some (mkPState kept (set_is_granted slot true) (Some (length kept)) changed 4)
          else None
      | _ => None
      end
  | _ =>
      let slot' := set_time slot (atoll tok) in
      if first_fresh_time <=? slot'.(time)
      then Some (mkPState (slot' :: kept) slot' granted changed 0)
      else Some (mkPState kept slot' granted true 0)
  end.

Fixpoint parse_fields (fft : Z) (ps : PState) (toks : list string) : option PState :=
  match toks with
  | [] => Some ps
  | t :: r =>
      match parse_field fft ps t with
      | Some ps' => parse_fields fft ps' r
      | None => None
      end
  end.

(** The buffers [parse_client_states] leaves behind.  [granted_state] is the
    contents of the slot the [granted_state] pointer designates: a kept entry,
    or (index [n_client_states]) the slot a dropped entry was parsed into. *)
Record Parsed := mkParsed {
  client_states : list ClientState;
  granted_state : option ClientState;
  client_states_changed : bool
}.

Definition parse_client_states (timeout_sec now : Z) (text : string) : option Parsed :=
  let first_fresh_time := now - timeout_sec in
  match parse_fields first_fresh_time (mkPState [] empty_slot None false 0) (state_fields text) with
  | None => None
  | Some (mkPState kept slot granted _ _ as ps) =>
      let states := rev kept in
      Some (mkParsed states
              (option_map (fun k => nth k (states ++ [slot]) slot) granted)
              ps.(ps_changed))
  end.

(** ** Request engine *)

(** The C functions return [-1] with [errno] set, or a value. *)
Inductive EngineResult :=
| Engine_error (errno : Z)
| Engine_ok (value : Z).

(** The outcome of an engine call: its result, the [client_states] buffer
    ([n_client_states] entries) and the contents of the state file after
    [dump_client_states], when it is called and changes the file. *)
Record Engine := mkEngine {
  eng_result : EngineResult;
  eng_states : list ClientState;
  eng_write : option string
}.

(** [strcmp(client_state->pid, pid) || strcmp(client_state->host_name, host_name)]
    is zero. *)
Definition same_client (host pid' : string) (cs : ClientState) : bool :=
  String.eqb cs.(pid) pid' && String.eqb cs.(host_name) host.

(** The first entry of the caller, with its index. *)
Fixpoint find_client (host pid' : string) (l : list ClientState) : option (nat * ClientState) :=
  match l with
  | [] => None
  | cs :: r =>
      if same_client host pid' cs then Some (0%nat, cs)
      else option_map (fun '(i, c) => (S i, c)) (find_client host pid' r)
  end.

Fixpoint replace_nth {A} (i : nat) (x : A) (l : list A) : list A :=
  match l, i with
  | [], _ => []
  | _ :: r, O => x :: r
  | y :: r, S j => y :: replace_nth j x r
  end.

(** [bool is_granted = !granted_state || (!is_write_lock && !granted_state->is_write_lock);] *)
Definition grant_now (granted : option ClientState) (is_write : bool) : bool :=
  match granted with
  | None => true
  | Some gs => negb is_write && negb gs.(is_write_lock)
  end.

(** What the environment does to [dump_client_states()]: every call
    succeeds; [fopen] fails with [errno], before truncating the file; or a
    later [fprintf] or [fclose] fails with [errno], the file then holding the
    first [written] characters of the text. *)
Inductive DumpOutcome :=
| Dump_ok
| Dump_fopen_failed (errno : Z)
| Dump_write_failed (errno : Z) (written : nat).

(** [if (dump_client_states() < 0) return -1;] then [return value;]. *)
Definition write_states (dump_result : DumpOutcome) (states : list ClientState) (value : Z)
    : Engine :=
  match dump_result with
  | Dump_ok => mkEngine (Engine_ok value) states (Some (dump_client_states states))
  | Dump_fopen_failed e => mkEngine (Engine_error e) states None
  | Dump_write_failed e k =>
      mkEngine (Engine_error e) states (Some (substring 0 k (dump_client_states states)))
  end.

(** [if (client_states_changed && dump_client_states() < 0) return -1;
    return is_granted;] *)
Definition finish_request (dump_result : DumpOutcome) (states : list ClientState)
    (changed granted : bool) : Engine :=
  if changed then write_states dump_result states (if granted then 1 else 0)
  else mkEngine (Engine_ok (if granted then 1 else 0)) states None.

(** [request_lock(is_write_lock)]; [now] is its [time(NULL)]. *)
Definition request_lock (host pid' : string) (is_write : bool) (now : Z)
    (dump_result : DumpOutcome) (ps : Parsed) : Engine :=
  let states := ps.(client_states) in
  let g := grant_now ps.(granted_state) is_write in
  match find_client host pid' states with
  | Some (i, cs) =>
      if cs.(is_granted) || negb (Bool.eqb cs.(is_write_lock) is_write)
      then mkEngine (Engine_error ENOTSUP) states None
      else
        let cs1 := if g then set_is_granted cs true else cs in
        let changed1 := ps.(client_states_changed) || g in
        let cs2 := if cs1.(time) =? now then cs1 else set_time cs1 now in
        let changed2 := if cs1.(time) =? now then changed1 else true in
        finish_request dump_result (replace_nth i cs2 states) changed2 g
  | None =>
      finish_request dump_result (states ++ [mkClientState is_write g now host pid']) true g
  end.

(** [memmove(client_state, client_state + 1, (end_state - client_state - 1) * ...)]
    on the slots from the removed one to the end: each slot takes the contents
    of the next one and the last slot keeps its own. *)
Definition memmove_down (suffix : list ClientState) : list ClientState :=
  match suffix with
  | [] => []
  | cs :: r => r ++ [last suffix cs]
  end.

(** [remove_lock]: [None] when [assert(client_state->is_granted)] fails.
    [n_client_states] is left as it is, so [dump_client_states] writes as
    many entries as were parsed; [if (dump_client_states() < 0) return -1;
    return 0;]. *)
Definition remove_lock (host pid' : string) (dump_result : DumpOutcome) (ps : Parsed)
    : option Engine :=
  let states := ps.(client_states) in
  match find_client host pid' states with
  | None => Some (mkEngine (Engine_error ENOTSUP) states None)
  | Some (i, cs) =>
      if cs.(is_granted) then
        let states' := firstn i states ++ memmove_down (skipn i states) in
        Some (write_states dump_result states' 0)
      else None
  end.

(** ** Filesystem mutex release: [exclusive_unlock] *)

Inductive LockPath := Lockfile | PrivateFile.

(** [errno] and the unlinks performed, in order. *)
Record Sys := mkSys { sys_errno : Z; sys_unlinked : list LockPath }.

(** [unlink(path)]; [outcome] is [None] on success, [Some e] when it fails
    with errno [e]; a successful call leaves [errno] alone. *)
Definition unlink (path : LockPath) (outcome : option Z) (s : Sys) : Z * Sys :=
  match outcome with
  | None => (0, mkSys s.(sys_errno) (s.(sys_unlinked) ++ [path]))
  | Some e => (-1, mkSys e (s.(sys_unlinked) ++ [path]))
  end.

Definition exclusive_unlock (u_lockfile u_private : option Z) (s : Sys) : Z * Sys :=
  let base_errno := s.(sys_errno) in
  let s0 := mkSys 0 s.(sys_unlinked) in
  let '(lockfile_result, s1) := unlink Lockfile u_lockfile s0 in
  let '(private_result, s2) := unlink PrivateFile u_private s1 in
  let s3 := if base_errno =? 0 then s2 else mkSys base_errno s2.(sys_unlinked) in
  (if lockfile_result <? private_result then lockfile_result else private_result, s3).

(** ** One iteration of the public retry loops *)

(** What the loop does after the iteration: return [-1] with errno, return
    [0], or spin again. *)
Inductive LoopStep :=
| Loop_error (errno : Z)
| Loop_return
| Loop_spin.

(** The state file after [load_state_text]: it is opened with [O_CREAT], so a
    missing file is created empty. *)
Definition loaded_text (file : option string) : string :=
  match file with Some s => s | None => EmptyString end.

(** The body of [narwhal_read_lock] ([is_write = false]) and
    [narwhal_write_lock] ([is_write = true]) once [exclusive_lock] succeeded;
    [t_load] and [t_req] are the [time(NULL)] of the parser and of
    [request_lock], [errno0] is [errno] on entry.  Returns the loop step, the
    state file afterwards and [errno]; [None] on a failed assertion. *)
Definition lock_iteration (timeout_sec : Z) (host pid' : string) (is_write : bool)
    (t_load t_req : Z) (u_lockfile u_private : option Z) (dump_result : DumpOutcome)
    (errno0 : Z) (file : option string) : option (LoopStep * option string * Z) :=
  let text := loaded_text file in
  match parse_client_states timeout_sec t_load text with
  | None => None
  | Some ps =>
      let e := request_lock host pid' is_write t_req dump_result ps in
      let file' := Some (match e.(eng_write) with Some s => s | None => text end) in
      let errno1 := match e.(eng_result) with Engine_error en => en | Engine_ok _ => errno0 end in
      let '(unlock_result, s) := exclusive_unlock u_lockfile u_private (mkSys errno1 []) in
      let step :=
        match e.(eng_result) with
        | Engine_error _ => Loop_error s.(sys_errno)
        | Engine_ok r =>
            if unlock_result <? 0 then Loop_error s.(sys_errno)
            else if r =? 0 then Loop_spin else Loop_return
        end in
      Some (step, file', s.(sys_errno))
  end.

(** The body of [narwhal_unlock] once [exclusive_lock] succeeded. *)
Definition unlock_iteration (timeout_sec : Z) (host pid' : string) (t_load : Z)
    (u_lockfile u_private : option Z) (dump_result : DumpOutcome) (errno0 : Z)
    (file : option string) : option (LoopStep * option string * Z) :=
  let text := loaded_text file in
  match parse_client_states timeout_sec t_load text with
  | None => None
  | Some ps =>
      match remove_lock host pid' dump_result ps with
      | None => None
      | Some e =>
          let file' := Some (match e.(eng_write) with Some s => s | None => text end) in
          let errno1 := match e.(eng_result) with Engine_error en => en | Engine_ok _ => errno0 end in
          let '(unlock_result, s) := exclusive_unlock u_lockfile u_private (mkSys errno1 []) in
          let step :=
            match e.(eng_result) with
            | Engine_error _ => Loop_error s.(sys_errno)
            | Engine_ok _ => if unlock_result <? 0 then Loop_error s.(sys_errno) else Loop_return
            end in
          Some (step, file', s.(sys_errno))
      end
  end.

(** ** Well-formed entries and the staleness test *)

(** A field [dump_client_states] writes is non-empty and holds no separator. *)
Definition no_sep (s : string) : bool :=
  forallb (fun c => negb (is_sep c)) (list_ascii_of_string s).
Definition wf_field (s : string) : bool := negb (String.eqb s EmptyString) && no_sep s.
Definition wf_client_state (cs : ClientState) : bool :=
  wf_field cs.(host_name) && wf_field cs.(pid).

(** [next_client_state->time >= first_fresh_time] *)
Definition is_fresh (first_fresh_time : Z) (cs : ClientState) : bool :=
  first_fresh_time <=? cs.(time).

(** The five fields of one line of the state file. *)
Definition entry_fields (cs : ClientState) : list string :=
  [cs.(host_name); cs.(pid); mode_char cs.(is_write_lock); status_char cs.(is_granted);
   show_Z cs.(time)].

(** [dump_client_states] of what [parse_client_states] read. *)
Definition reserialize (timeout_sec now : Z) (s : string) : option string :=
  option_map (fun ps => dump_client_states ps.(client_states))
             (parse_client_states timeout_sec now s).

(** The grant rule as the spec states it, on the entries kept after the load:
    granted when no kept entry is granted, or when a read is requested and the
    kept granted entry is a read. *)
Definition spec_grant_now (states : list ClientState) (is_write : bool) : bool :=
  match find (fun cs => is_granted cs) states with
  | None => true
  | Some gs => negb is_write && negb gs.(is_write_lock)
  end.

(** The invariants of the persisted state. *)
Definition client_key (cs : ClientState) : string * string := (cs.(host_name), cs.(pid)).

Definition state_invariant (l : list ClientState) : Prop :=
  NoDup (map client_key l) /\
  (existsb (fun cs => is_granted cs && is_write_lock cs) l = true ->
     length (filter is_granted l) = 1%nat) /\
  (forall a b, In a (filter is_granted l) -> In b (filter is_granted l) ->
     a.(is_write_lock) = b.(is_write_lock)).

(** ** Process identity *)

(** [patch_host_name]: every space becomes [_]. *)
Definition patch_char (c : ascii) : ascii :=
  if char_code c =? 32 then "_"%char else c.

Definition patch_host_name (h : string) : string :=
  string_of_list_ascii (map patch_char (list_ascii_of_string h)).

(** The process-wide [host_name] and [pid] ([None]: still NULL). *)
Record Identity := mkIdentity { id_host_name : option string; id_pid : option string }.

(** [narwhal_hostname]: [None] when [assert(hostname[0])] fails. *)
Definition narwhal_hostname (hostname : string) (id : Identity) : option Identity :=
  match hostname with
  | EmptyString => None
  | _ => Some (mkIdentity (Some (patch_host_name hostname)) id.(id_pid))
  end.

(** [narwhal_pid]: the copy is stored, then [assert(pid[0])] is checked. *)
Definition narwhal_pid (new_pid : string) (id : Identity) : option Identity :=
  match new_pid with
  | EmptyString => None
  | _ => Some (mkIdentity id.(id_host_name) (Some new_pid))
  end.

(** [init_host_name]; [gethostname_result] is the name [gethostname] reports.
    It is copied into a 1024-byte buffer whose last byte is forced to NUL, so
    at most 1023 characters are kept. *)
Definition init_host_name (gethostname_result : string) (id : Identity) : Identity :=
  match id.(id_host_name) with
  | Some _ => id
  | None => mkIdentity (Some (patch_host_name (substring 0 1023 gethostname_result))) id.(id_pid)
  end.

(** [init_pid]: [sprintf(pid, "%lld", (long long)(getpid()))]. *)
Definition init_pid (getpid_result : Z) (id : Identity) : Identity :=
  match id.(id_pid) with
  | Some _ => id
  | None => mkIdentity id.(id_host_name) (Some (show_Z getpid_result))
  end.

(** [init]: runs once per process ([did_init]). *)
Record Globals := mkGlobals { did_init : bool; identity : Identity }.

Definition init (gethostname_result : string) (getpid_result : Z) (g : Globals) : Globals :=
  if g.(did_init) then g
  else mkGlobals true (init_pid getpid_result (init_host_name gethostname_result g.(identity))).

(** ** Paths: [format_path] *)

Fixpoint format_path (parts : list string) : string :=
  match parts with
  | [] => EmptyString
  | p :: r => (p ++ format_path r)%string
  end.

Definition state_path (lockdir : string) : string := format_path [lockdir; "/state"%string].
Definition lockfile_path (lockdir : string) : string := format_path [lockdir; "/lockfile"%string].
Definition private_path (lockdir host pid' : string) : string :=
  format_path [lockdir; "/"%string; host; "."%string; pid'].

(** ** Taking the filesystem mutex: [exclusive_lock] *)

(** The spin loop: each attempt is the outcome of [link] and, when it fails,
    the [time(NULL)] read after [nanosleep].  [Spin_running]: the attempts
    given ran out without a decision. *)
Inductive SpinOutcome := Spin_held | Spin_timeout | Spin_running.

Fixpoint spin_link (last_reasonable_time : Z) (attempts : list (bool * Z)) : SpinOutcome * nat :=
  match attempts with
  | [] => (Spin_running, 0%nat)
  | (linked, t) :: r =>
      if linked then (Spin_held, 1%nat)
      else if last_reasonable_time <? t then (Spin_timeout, 1%nat)
      else let '(o, k) := spin_link last_reasonable_time r in (o, S k)
  end.

Inductive MutexResult :=
| Mutex_held
| Mutex_failed (errno : Z)
| Mutex_spinning.

(** [exclusive_lock]: [creat] and [close] of the private file, then the spin
    loop with deadline [now0 + timeout_sec].  Returns the result, the number
    of [link] calls and whether the private file exists afterwards. *)
Definition exclusive_lock (creat_result close_result : option Z) (timeout_sec now0 : Z)
    (attempts : list (bool * Z)) : MutexResult * nat * bool :=
  match creat_result with
  | Some e => (Mutex_failed e, 0%nat, false)
  | None =>
      match close_result with
      | Some e => (Mutex_failed e, 0%nat, true)
      | None =>
          let '(o, k) := spin_link (now0 + timeout_sec) attempts in
          (match o with
           | Spin_held => Mutex_held
           | Spin_timeout => Mutex_failed ETIMEDOUT
           | Spin_running => Mutex_spinning
           end, k, true)
      end
  end.

(** ** The public retry loops *)

(** What the environment does in one iteration of a retry loop. *)
Record IterEnv := mkIterEnv {
  ie_creat : option Z;
  ie_close : option Z;
  ie_now0 : Z;
  ie_attempts : list (bool * Z);
  ie_load_error : option Z;
  ie_t_load : Z;
  ie_t_req : Z;
  ie_u_lockfile : option Z;
  ie_u_private : option Z;
  ie_dump : DumpOutcome
}.

Inductive CallResult := Call_ok | Call_failed | Call_running.

(** [narwhal_read_lock] / [narwhal_write_lock] over the iterations the
    environment describes: the result, the state file and [errno];
    [None] on a failed assertion.  [ie_load_error = Some e]: [load_state_text]
    returned [-1] with errno [e]; otherwise it read the whole state file (the
    [ENOENT] path of its [open], which has [O_CREAT], needs the lockdir itself
    to vanish and is not covered). *)
Fixpoint narwhal_lock (timeout_sec : Z) (host pid' : string) (is_write : bool)
    (envs : list IterEnv) (file : option string) (errno0 : Z)
    : option (CallResult * option string * Z) :=
  match envs with
  | [] => Some (Call_running, file, errno0)
  | env :: rest =>
      match exclusive_lock env.(ie_creat) env.(ie_close) timeout_sec env.(ie_now0)
                           env.(ie_attempts) with
      | (Mutex_failed e, _, _) => Some (Call_failed, file, e)
      | (Mutex_spinning, _, _) => Some (Call_running, file, errno0)
      | (Mutex_held, _, _) =>
          match env.(ie_load_error) with
          | Some e =>
              Some (Call_failed, file,
                    (snd (exclusive_unlock env.(ie_u_lockfile) env.(ie_u_private) (mkSys e []))).(sys_errno))
          | None =>
          match lock_iteration timeout_sec host pid' is_write env.(ie_t_load) env.(ie_t_req)
                  env.(ie_u_lockfile) env.(ie_u_private) env.(ie_dump) errno0 file with
          | None => None
          | Some (Loop_error e, file', _) => Some (Call_failed, file', e)
          | Some (Loop_return, file', e) => Some (Call_ok, file', e)
          | Some (Loop_spin, file', e) => narwhal_lock timeout_sec host pid' is_write rest file' e
          end
          end
      end
  end.

(** [narwhal_unlock]: its loop body runs once. *)
Definition narwhal_unlock (timeout_sec : Z) (host pid' : string) (env : IterEnv)
    (file : option string) (errno0 : Z) : option (CallResult * option string * Z) :=
  match exclusive_lock env.(ie_creat) env.(ie_close) timeout_sec env.(ie_now0)
                       env.(ie_attempts) with
  | (Mutex_failed e, _, _) => Some (Call_failed, file, e)
  | (Mutex_spinning, _, _) => Some (Call_running, file, errno0)
  | (Mutex_held, _, _) =>
      match env.(ie_load_error) with
      | Some e =>
          Some (Call_failed, file,
                (snd (exclusive_unlock env.(ie_u_lockfile) env.(ie_u_private) (mkSys e []))).(sys_errno))
      | None =>
      match unlock_iteration timeout_sec host pid' env.(ie_t_load)
              env.(ie_u_lockfile) env.(ie_u_private) env.(ie_dump) errno0 file with
      | None => None
      | Some (Loop_error e, file', _) => Some (Call_failed, file', e)
      | Some (Loop_return, file', e) => Some (Call_ok, file', e)
      | Some (Loop_spin, file', e) => Some (Call_running, file', e)
      end
      end
  end.

(** ** A single process calling the public operations *)

(** The [time(NULL)] readings of one iteration, in the order they are made:
    the start of [exclusive_lock], one after each [nanosleep], then the
    parser's and [request_lock]'s. *)
Definition readings (env : IterEnv) : list Z :=
  env.(ie_now0) :: map snd env.(ie_attempts) ++ [env.(ie_t_load); env.(ie_t_req)].

(** The last reading when the readings never go back in time from [c]. *)
Fixpoint ordered_from (c : Z) (ts : list Z) : option Z :=
  match ts with
  | [] => Some c
  | t :: r => if c <=? t then ordered_from t r else None
  end.

Fixpoint clock_after (c : Z) (envs : list IterEnv) : option Z :=
  match envs with
  | [] => Some c
  | env :: rest =>
      match ordered_from c (readings env) with
      | Some c' => clock_after c' rest
      | None => None
      end
  end.

(** The state file and the clock. *)
Record World := mkWorld { w_file : option string; w_clock : Z }.

(** The states a single process [(host, pid')] reaches from an empty lockdir:
    its public calls run one after the other, each until it returns, with a
    clock that never goes back; the system calls may fail. *)
Inductive reach (timeout_sec : Z) (host pid' : string) : World -> Prop :=
| reach_init (t : Z) : reach timeout_sec host pid' (mkWorld None t)
| reach_lock (w : World) (is_write : bool) (envs : list IterEnv) (errno0 : Z)
    (r : CallResult) (file' : option string) (errno' t' : Z) :
    reach timeout_sec host pid' w ->
    clock_after w.(w_clock) envs = Some t' ->
    narwhal_lock timeout_sec host pid' is_write envs w.(w_file) errno0 = Some (r, file', errno') ->
    r <> Call_running ->
    reach timeout_sec host pid' (mkWorld file' t')
| reach_unlock (w : World) (env : IterEnv) (errno0 : Z)
    (r : CallResult) (file' : option string) (errno' t' : Z) :
    reach timeout_sec host pid' w ->
    clock_after w.(w_clock) [env] = Some t' ->
    narwhal_unlock timeout_sec host pid' env w.(w_file) errno0 = Some (r, file', errno') ->
    r <> Call_running ->
    reach timeout_sec host pid' (mkWorld file' t').

Definition has_dot (s : string) : bool :=
  existsb (fun c => char_code c =? 46) (list_ascii_of_string s).

(** A failed [link] attempt whose clock reading is within the deadline. *)
Definition before_deadline (D : Z) (a : bool * Z) : Prop := fst a = false /\ snd a <= D.

(** While the parser has met no [G] entry, no kept entry and no completed slot
    is granted. *)
Definition no_grant_inv (ps : PState) : Prop :=
  ps.(ps_granted) = None ->
  Forall (fun cs => cs.(is_granted) = false) ps.(ps_kept) /\
  ((4 <= ps.(ps_field))%nat -> ps.(ps_slot).(is_granted) = false).

(** ** Any number of processes *)

(** The state files reached from an empty lockdir when any processes, whose
    host name and pid are valid fields, run iterations of the public calls at
    any times, in runs where every write of the state file succeeds (the
    unlinks may fail); each iteration runs under the filesystem mutex, and
    the other failures leave the file alone. *)
Inductive reach_many (timeout_sec : Z) : option string -> Prop :=
| many_init : reach_many timeout_sec None
| many_lock (file : option string) (host pid' : string) (is_write : bool) (t_load t_req : Z)
    (u1 u2 : option Z) (errno0 : Z) (step : LoopStep) (file' : option string) (errno' : Z) :
    reach_many timeout_sec file -> wf_field host = true -> wf_field pid' = true ->
    lock_iteration timeout_sec host pid' is_write t_load t_req u1 u2 Dump_ok errno0 file
      = Some (step, file', errno') ->
    reach_many timeout_sec file'
| many_unlock (file : option string) (host pid' : string) (t_load : Z)
    (u1 u2 : option Z) (errno0 : Z) (step : LoopStep) (file' : option string) (errno' : Z) :
    reach_many timeout_sec file -> wf_field host = true -> wf_field pid' = true ->
    unlock_iteration timeout_sec host pid' t_load u1 u2 Dump_ok errno0 file
      = Some (step, file', errno') ->
    reach_many timeout_sec file'.

(** The state file is missing or holds serialized well-formed entries. *)
Definition serialized_state (file : option string) : Prop :=
  file = None \/ exists l, file = Some (dump_client_states l) /\ forallb wf_client_state l = true.

(** ** Examples *)

Definition nl : string := String (ascii_of_nat 10) EmptyString.

Definition test_file : string := ("host1 100 R G 5" ++ nl ++ "host1 200 W P 5" ++ nl)%string.
Example ex_parse : option_map client_states (parse_client_states 10 5 test_file) =
  Some [mkClientState false true 5 "host1" "100"; mkClientState true false 5 "host1" "200"].
Proof. vm_compute. reflexivity. Qed.
Example ex_show : show_Z (-1700000000) = "-1700000000"%string /\ show_Z 0 = "0"%string /\ atoll "-42" = -42.
Proof. vm_compute. auto. Qed.
Example ex_dump : dump_client_states [mkClientState false true 5 "host1" "100"; mkClientState true false 5 "host1" "200"] = test_file.
Proof. vm_compute. reflexivity. Qed.

(** ** Codec lemmas *)

Lemma string_app_assoc (a b c : string) : ((a ++ b) ++ c = a ++ (b ++ c))%string.
Proof. induction a as [|x a IH]; simpl; [reflexivity | now rewrite IH]. Qed.

Lemma split_fields_word (w : string) (cur : list ascii) (c : ascii) (r : string) :
  no_sep w = true -> is_sep c = true ->
  split_fields (w ++ String c r) cur
  = string_of_list_ascii (rev cur ++ list_ascii_of_string w) :: split_fields r [].
Proof.
  revert cur. induction w as [|a w IH]; intros cur Hw Hc; simpl.
  - now rewrite Hc, app_nil_r.
  - simpl in Hw. apply andb_prop in Hw as [Ha Hw].
    destruct (is_sep a); [discriminate|].
    rewrite IH by assumption. simpl. now rewrite <- app_assoc.
Qed.

Lemma split_fields_field (w : string) (c : ascii) (r : string) :
  no_sep w = true -> is_sep c = true ->
  split_fields (w ++ String c r) [] = w :: split_fields r [].
Proof.
  intros Hw Hc. rewrite split_fields_word by assumption.
  simpl. now rewrite string_of_list_ascii_of_string.
Qed.

Lemma digit_char_spec (d : Z) : 0 <= d < 10 ->
  is_digit (digit_char d) = true /\ digit_val (digit_char d) = d /\
  is_sep (digit_char d) = false /\ is_space (digit_char d) = false /\
  (char_code (digit_char d) =? 45) = false /\ (char_code (digit_char d) =? 43) = false.
Proof.
  intros Hd.
  assert (d = 0 \/ d = 1 \/ d = 2 \/ d = 3 \/ d = 4 \/ d = 5 \/ d = 6 \/ d = 7
          \/ d = 8 \/ d = 9) as Hcases by lia.
  repeat destruct Hcases as [-> | Hcases]; subst; vm_compute; repeat split.
Qed.

Lemma digits_of_range (f : nat) (n : Z) : 0 <= n ->
  Forall (fun d => 0 <= d < 10) (digits_of f n).
Proof.
  revert n. induction f as [|f IH]; intros n Hn; simpl; [constructor|].
  destruct (Z.ltb_spec n 10).
  - repeat constructor; lia.
  - apply Forall_app. split.
    + apply IH. apply Z.div_pos; lia.
    + repeat constructor; [apply Z.mod_pos_bound | apply Z.mod_pos_bound]; lia.
Qed.

Definition decimal_value (ds : list Z) (acc : Z) : Z :=
  fold_left (fun a d => a * 10 + d) ds acc.

Lemma digits_of_value (f : nat) (n : Z) : 0 <= n < 10 ^ Z.of_nat f ->
  decimal_value (digits_of f n) 0 = n.
Proof.
  revert n. induction f as [|f IH]; intros n Hn.
  - simpl in Hn. simpl. lia.
  - simpl. destruct (Z.ltb_spec n 10).
    + unfold decimal_value. simpl. lia.
    + unfold decimal_value. rewrite fold_left_app. simpl.
      fold (decimal_value (digits_of f (n / 10)) 0).
      rewrite IH.
      * pose proof (Z.div_mod n 10). lia.
      * split; [apply Z.div_pos; lia|].
        apply Z.div_lt_upper_bound; [lia|].
        rewrite Nat2Z.inj_succ, Z.pow_succ_r in Hn by lia. lia.
Qed.

Lemma read_digits_map (ds : list Z) (acc : Z) :
  Forall (fun d => 0 <= d < 10) ds ->
  read_digits (string_of_list_ascii (map digit_char ds)) acc = decimal_value ds acc.
Proof.
  revert acc. induction ds as [|d ds IH]; intros acc Hds; [reflexivity|].
  inversion Hds as [|? ? Hd Hrest]; subst.
  destruct (digit_char_spec d Hd) as (Hdig & Hval & _).
  simpl. rewrite Hdig, Hval. now apply IH.
Qed.

Lemma show_fuel_enough (n : Z) : 0 <= n -> n < 10 ^ Z.of_nat (S (Z.to_nat (Z.log2 n))).
Proof.
  intros Hn.
  rewrite Nat2Z.inj_succ, Z2Nat.id by apply Z.log2_nonneg.
  destruct (Z.eq_dec n 0) as [->|Hn0]; [simpl; lia|].
  destruct (Z.log2_spec n) as [_ Hlt]; [lia|].
  eapply Z.lt_le_trans; [exact Hlt|].
  apply Z.pow_le_mono_l. lia.
Qed.

Lemma read_show_nonneg (n : Z) : 0 <= n -> read_digits (show_nonneg n) 0 = n.
Proof.
  intros Hn. unfold show_nonneg.
  rewrite read_digits_map by (apply digits_of_range; lia).
  apply digits_of_value. split; [lia|]. now apply show_fuel_enough.
Qed.

Lemma show_nonneg_cons (n : Z) : exists d ds, 0 <= d < 10 /\
  show_nonneg n = String (digit_char d) (string_of_list_ascii (map digit_char ds)) /\
  Forall (fun d => 0 <= d < 10) ds \/ n < 0.
Proof.
  destruct (Z.ltb_spec n 0) as [Hneg|Hn]; [exists 0, []; now right|].
  pose proof (digits_of_range (S (Z.to_nat (Z.log2 n))) n Hn) as Hr.
  unfold show_nonneg. simpl. simpl in Hr.
  destruct (n <? 10); [|destruct (digits_of (Z.to_nat (Z.log2 n)) (n / 10)) as [|d ds] eqn:E].
  - exists n, []. left. inversion Hr; subst. repeat split; auto; lia.
  - exists (n mod 10), []. left. inversion Hr; subst. repeat split; auto; lia.
  - exists d, (ds ++ [n mod 10]). left. simpl in Hr. inversion Hr; subst. repeat split; auto; lia.
Qed.

Lemma atoll_show_Z (z : Z) : atoll (show_Z z) = z.
Proof.
  unfold show_Z. destruct (Z.ltb_spec z 0) as [Hneg|Hnn].
  - unfold atoll. simpl. rewrite read_show_nonneg by lia. lia.
  - destruct (show_nonneg_cons z) as (d & ds & [(Hd & Heq & Hds) | Hlt]); [|lia].
    pose proof (read_show_nonneg z Hnn) as Hread.
    destruct (digit_char_spec d Hd) as (_ & _ & _ & Hsp & H45 & H43).
    unfold atoll. rewrite Heq. cbn [skip_spaces]. rewrite Hsp. cbv iota beta.
    rewrite H45, H43. cbv iota beta. rewrite <- Heq. exact Hread.
Qed.

Lemma no_sep_show_Z (z : Z) : no_sep (show_Z z) = true /\ show_Z z <> EmptyString.
Proof.
  assert (Hnn : forall n, 0 <= n -> no_sep (show_nonneg n) = true /\ show_nonneg n <> EmptyString).
  { intros n Hn. destruct (show_nonneg_cons n) as (d & ds & [(Hd & Heq & Hds) | Hlt]); [|lia].
    rewrite Heq. split; [|discriminate].
    unfold no_sep. simpl. rewrite list_ascii_of_string_of_list_ascii.
    destruct (digit_char_spec d Hd) as (_ & _ & Hsep & _). rewrite Hsep. simpl.
    rewrite forallb_forall. intros c Hc. apply in_map_iff in Hc as (d' & <- & Hin).
    rewrite Forall_forall in Hds. destruct (digit_char_spec d' (Hds d' Hin)) as (_ & _ & Hs & _).
    now rewrite Hs. }
  unfold show_Z. destruct (Z.ltb_spec z 0).
  - destruct (Hnn (- z)) as [H1 _]; [lia|]. split; [|discriminate]. exact H1.
  - apply Hnn. lia.
Qed.

Lemma wf_client_state_fields (cs : ClientState) : wf_client_state cs = true ->
  no_sep cs.(host_name) = true /\ cs.(host_name) <> EmptyString /\
  no_sep cs.(pid) = true /\ cs.(pid) <> EmptyString.
Proof.
  unfold wf_client_state, wf_field. intros H.
  apply andb_prop in H as [H1 H2]. apply andb_prop in H1 as [H1a H1b].
  apply andb_prop in H2 as [H2a H2b].
  apply negb_true_iff, String.eqb_neq in H1a. apply negb_true_iff, String.eqb_neq in H2a.
  auto.
Qed.

Lemma split_fields_dump (l : list ClientState) : forallb wf_client_state l = true ->
  split_fields (dump_client_states l) [] = concat (map entry_fields l) ++ [EmptyString].
Proof.
  induction l as [|cs l IH]; intros Hwf; [reflexivity|].
  simpl in Hwf. apply andb_prop in Hwf as [Hcs Hl].
  destruct (wf_client_state_fields cs Hcs) as (Hh & _ & Hp & _).
  destruct (no_sep_show_Z cs.(time)) as [Ht _].
  destruct cs as [w g t h p]. cbn [dump_client_states]. unfold format_client_state.
  cbn [host_name pid is_write_lock is_granted time] in *.
  repeat rewrite string_app_assoc. cbn [append].
  rewrite split_fields_field by (assumption || reflexivity).
  rewrite split_fields_field by (assumption || reflexivity).
  destruct w, g; cbn [mode_char status_char append split_fields];
    (replace (is_sep "W"%char) with false by reflexivity || replace (is_sep "R"%char) with false by reflexivity);
    (replace (is_sep "G"%char) with false by reflexivity || replace (is_sep "P"%char) with false by reflexivity);
    replace (is_sep " "%char) with true by reflexivity;
    rewrite split_fields_field by (assumption || reflexivity);
    rewrite IH by assumption; reflexivity.
Qed.

Lemma take_nonempty_app (fs : list string) :
  Forall (fun s => s <> EmptyString) fs -> take_nonempty (fs ++ [EmptyString]) = fs.
Proof.
  induction fs as [|s fs IH]; intros Hfs; [reflexivity|].
  inversion Hfs as [|? ? Hs Hrest]; subst.
  destruct s as [|c s]; [contradiction|]. simpl. now rewrite IH.
Qed.

Lemma entry_fields_nonempty (l : list ClientState) : forallb wf_client_state l = true ->
  Forall (fun s => s <> EmptyString) (concat (map entry_fields l)).
Proof.
  induction l as [|cs l IH]; intros Hwf; [constructor|].
  simpl in Hwf. apply andb_prop in Hwf as [Hcs Hl].
  destruct (wf_client_state_fields cs Hcs) as (_ & Hh & _ & Hp).
  destruct (no_sep_show_Z cs.(time)) as [_ Ht].
  simpl. repeat constructor; auto.
  - destruct (is_write_lock cs); discriminate.
  - destruct (is_granted cs); discriminate.
Qed.

Lemma state_fields_dump (l : list ClientState) : forallb wf_client_state l = true ->
  state_fields (dump_client_states l) = concat (map entry_fields l).
Proof.
  intros Hwf. unfold state_fields. rewrite split_fields_dump by assumption.
  apply take_nonempty_app, entry_fields_nonempty, Hwf.
Qed.

Lemma parse_fields_app (fft : Z) (ps : PState) (a b : list string) :
  parse_fields fft ps (a ++ b) =
  match parse_fields fft ps a with Some ps' => parse_fields fft ps' b | None => None end.
Proof.
  revert ps. induction a as [|t a IH]; intros ps; [reflexivity|].
  simpl. destruct (parse_field fft ps t); [apply IH | reflexivity].
Qed.

(** Parsing the fields of serialized entries keeps the fresh ones, in order,
    and sets the changed flag exactly when one of them is stale. *)
Lemma parse_fields_dump (fft : Z) (l : list ClientState) :
  forall kept slot granted changed,
  exists slot' granted',
  parse_fields fft (mkPState kept slot granted changed 0) (concat (map entry_fields l))
  = Some (mkPState (rev (filter (is_fresh fft) l) ++ kept) slot' granted'
                   (changed || existsb (fun cs => negb (is_fresh fft cs)) l) 0).
Proof.
  induction l as [|cs l IH]; intros kept slot granted changed.
  - exists slot, granted. simpl. now rewrite orb_false_r.
  - destruct cs as [w g t h p].
    cbn [map concat]. rewrite parse_fields_app.
    set (g' := if g then Some (length kept) else granted).
    assert (Hstep : parse_fields fft (mkPState kept slot granted changed 0)
                      (entry_fields (mkClientState w g t h p))
      = Some (if is_fresh fft (mkClientState w g t h p)
              then mkPState (mkClientState w g t h p :: kept) (mkClientState w g t h p) g' changed 0
              else mkPState kept (mkClientState w g t h p) g' true 0)).
    { unfold entry_fields, is_fresh. cbn [host_name pid is_write_lock is_granted time].
      destruct w, g; cbv -[atoll show_Z Z.leb]; rewrite atoll_show_Z;
        destruct (fft <=? t); reflexivity. }
    rewrite Hstep. cbn [filter existsb rev].
    change (is_fresh fft (mkClientState w g t h p)) with (fft <=? t).
    destruct (fft <=? t) eqn:Ht; cbn [negb orb rev].
    + destruct (IH (mkClientState w g t h p :: kept) (mkClientState w g t h p) g' changed)
        as (slot' & gr' & ->).
      exists slot', gr'. now rewrite <- app_assoc.
    + destruct (IH kept (mkClientState w g t h p) g' true) as (slot' & gr' & ->).
      exists slot', gr'. now rewrite orb_true_r.
Qed.

Lemma parse_client_states_dump (timeout_sec now : Z) (l : list ClientState) :
  forallb wf_client_state l = true ->
  exists g, parse_client_states timeout_sec now (dump_client_states l)
  = Some (mkParsed (filter (is_fresh (now - timeout_sec)) l) g
                   (existsb (fun cs => negb (is_fresh (now - timeout_sec) cs)) l)).
Proof.
  intros Hwf. unfold parse_client_states. rewrite state_fields_dump by assumption.
  destruct (parse_fields_dump (now - timeout_sec) l [] empty_slot None false)
    as (slot' & g & ->).
  cbn. rewrite app_nil_r, rev_involutive. eexists. reflexivity.
Qed.

Lemma parse_field_kept (fft : Z) (ps ps' : PState) (tok : string) :
  parse_field fft ps tok = Some ps' ->
  ps'.(ps_kept) = ps.(ps_kept) \/
  exists cs, ps'.(ps_kept) = cs :: ps.(ps_kept) /\ fft <= cs.(time).
Proof.
  destruct ps as [kept slot granted changed field]. unfold parse_field.
  intros H.
  repeat match goal with
         | H : match ?x with _ => _ end = Some _ |- _ => destruct x eqn:?
         | H : (if ?b then _ else _) = Some _ |- _ => destruct b eqn:?
         end;
    try discriminate; injection H as <-; cbn; auto.
  right. eexists. split; [reflexivity|]. cbn in *. lia.
Qed.

Lemma parse_fields_kept_fresh (fft : Z) (toks : list string) :
  forall ps ps', parse_fields fft ps toks = Some ps' ->
  Forall (fun cs => fft <= cs.(time)) ps.(ps_kept) ->
  Forall (fun cs => fft <= cs.(time)) ps'.(ps_kept).
Proof.
  induction toks as [|t toks IH]; intros ps ps' H Hk.
  - injection H as <-. exact Hk.
  - cbn in H. destruct (parse_field fft ps t) as [ps1|] eqn:E; [|discriminate].
    apply (IH ps1); [exact H|].
    destruct (parse_field_kept fft ps ps1 t E) as [-> | (cs & -> & Hcs)]; auto.
Qed.

(** Reap completeness: whatever the text, no kept entry is stale. *)
Lemma parse_client_states_fresh (timeout_sec now : Z) (text : string) (ps : Parsed) :
  parse_client_states timeout_sec now text = Some ps ->
  Forall (fun cs => now - timeout_sec <= cs.(time)) ps.(client_states).
Proof.
  unfold parse_client_states.
  destruct (parse_fields (now - timeout_sec) (mkPState [] empty_slot None false 0)
              (state_fields text)) as [[kept slot granted changed field]|] eqn:E;
    [|discriminate].
  intros H. injection H as <-. cbn.
  apply Forall_rev.
  apply (parse_fields_kept_fresh _ _ _ _ E). constructor.
Qed.

Lemma existsb_stale (fft : Z) (l : list ClientState) :
  existsb (fun cs => negb (is_fresh fft cs)) l = existsb (fun cs => cs.(time) <? fft) l.
Proof.
  induction l as [|cs l IH]; [reflexivity|].
  cbn. rewrite IH. unfold is_fresh. now rewrite Z.ltb_antisym.
Qed.

Lemma filter_all_fresh (fft : Z) (l : list ClientState) :
  forallb (is_fresh fft) l = true -> filter (is_fresh fft) l = l.
Proof.
  induction l as [|cs l IH]; intros H; [reflexivity|].
  cbn in H. apply andb_prop in H as [H1 H2]. cbn. rewrite H1. now rewrite IH.
Qed.

(** ** Engine lemmas *)

Lemma exclusive_unlock_spec (u1 u2 : option Z) (s : Sys) :
  exclusive_unlock u1 u2 s =
  (match u1, u2 with None, None => 0 | _, _ => -1 end,
   mkSys (if s.(sys_errno) =? 0
          then match u2, u1 with Some e, _ => e | None, Some e => e | None, None => 0 end
          else s.(sys_errno))
         (s.(sys_unlinked) ++ [Lockfile; PrivateFile])).
Proof.
  destruct s as [e un]. unfold exclusive_unlock, unlink. cbn.
  destruct u1, u2, (e =? 0); cbn; rewrite <- ?app_assoc; reflexivity.
Qed.

(** * Claims *)

(** C1.  Writer preference: with [host1 100] holding a read lock
    and [host1 200] waiting for a write lock, a read request of [host3 300]
    is granted on its first iteration and persisted as [R G]; the header of
    [narwhal_read_lock] says a read is granted only when there is no write
    lock, granted or pending. *)
Theorem read_granted_past_pending_writer :
  lock_iteration 10 "host3" "300" false 5 5 None None Dump_ok 0
    (Some ("host1 100 R G 5" ++ nl ++ "host1 200 W P 5" ++ nl)%string)
  = Some (Loop_return,
          Some ("host1 100 R G 5" ++ nl ++ "host1 200 W P 5" ++ nl
                ++ "host3 300 R G 5" ++ nl)%string, 0).
Proof. vm_compute. reflexivity. Qed.

(** C2.  The only granted entry [host1 100 R G 0] is stale at time
    20 (timeout 10): the parser drops it, so by the spec's rule a write
    request is granted, but [granted_state] still designates its slot, the
    code's [grant_now] is false, and the writer is persisted as pending. *)
Theorem stale_granted_entry_blocks_writer :
  parse_client_states 10 20 ("host1 100 R G 0" ++ nl)%string
    = Some (mkParsed [] (Some (mkClientState false true 0 "host1" "100")) true) /\
  spec_grant_now [] true = true /\
  grant_now (Some (mkClientState false true 0 "host1" "100")) true = false /\
  lock_iteration 10 "host1" "200" true 20 20 None None Dump_ok 0 (Some ("host1 100 R G 0" ++ nl)%string)
    = Some (Loop_spin, Some ("host1 200 W P 20" ++ nl)%string, 0).
Proof. vm_compute. repeat split. Qed.

(** C3.  After a successful release by [host1 100] of a state with
    two granted readers, the persisted state lists [host1 200] twice: the
    pair [(host, pid)] is no longer unique. *)
Theorem release_breaks_unique_keys :
  unlock_iteration 10 "host1" "100" 5 None None Dump_ok 0
    (Some ("host1 100 R G 5" ++ nl ++ "host1 200 R G 5" ++ nl)%string)
  = Some (Loop_return, Some ("host1 200 R G 5" ++ nl ++ "host1 200 R G 5" ++ nl)%string, 0) /\
  exists ps, parse_client_states 10 5 ("host1 200 R G 5" ++ nl ++ "host1 200 R G 5" ++ nl)%string
             = Some ps /\ ~ state_invariant ps.(client_states).
Proof.
  split; [vm_compute; reflexivity|].
  eexists. split; [vm_compute; reflexivity|].
  intros [Hnd _]. cbn in Hnd. inversion Hnd as [|? ? Hnotin]; subst.
  apply Hnotin. left. reflexivity.
Qed.

(** C4.  Loading a state file written by [dump_client_states] keeps exactly
    the entries with [time >= now - timeout_sec], in order, and marks the state
    changed exactly when some entry has [time < now - timeout_sec]; and after
    any load (of any text the parser accepts) no kept entry is stale.  With
    [timeout_sec = 0] this is [time >= now]. *)
Theorem parse_keeps_exactly_fresh (timeout_sec now : Z) (l : list ClientState) :
  forallb wf_client_state l = true ->
  (exists g, parse_client_states timeout_sec now (dump_client_states l)
     = Some (mkParsed (filter (fun cs => now - timeout_sec <=? cs.(time)) l) g
                      (existsb (fun cs => cs.(time) <? now - timeout_sec) l))) /\
  (forall text ps, parse_client_states timeout_sec now text = Some ps ->
     Forall (fun cs => now - timeout_sec <= cs.(time)) ps.(client_states)).
Proof.
  intros Hwf. split.
  - destruct (parse_client_states_dump timeout_sec now l Hwf) as (g & ->).
    exists g. rewrite existsb_stale. reflexivity.
  - apply parse_client_states_fresh.
Qed.

Lemma parse_keeps_exactly_fresh_witness :
  forallb wf_client_state [mkClientState false true 0 "host1" "100";
                           mkClientState true false 25 "host1" "200"] = true /\
  ((exists g, parse_client_states 10 20 (dump_client_states
       [mkClientState false true 0 "host1" "100"; mkClientState true false 25 "host1" "200"])
     = Some (mkParsed (filter (fun cs => 20 - 10 <=? cs.(time))
               [mkClientState false true 0 "host1" "100"; mkClientState true false 25 "host1" "200"]) g
             (existsb (fun cs => cs.(time) <? 20 - 10)
               [mkClientState false true 0 "host1" "100"; mkClientState true false 25 "host1" "200"]))) /\
   (forall text ps, parse_client_states 10 20 text = Some ps ->
     Forall (fun cs => 20 - 10 <= cs.(time)) ps.(client_states))).
Proof.
  split; [vm_compute; reflexivity|].
  apply (parse_keeps_exactly_fresh 10 20). vm_compute. reflexivity.
Defined.

(** C5.  When the caller's (first) entry in the loaded state is already
    granted or has the other mode, the iteration fails with [ENOTSUP] (also
    when the mutex release itself fails, since [errno] on entry is kept), and
    the state file is left exactly as it was. *)
Theorem acquire_conflict_unsupported (timeout_sec : Z) (host pid' : string) (is_write : bool)
    (t_load t_req : Z) (u1 u2 : option Z) (dump_result : DumpOutcome) (errno0 : Z)
    (text : string) (ps : Parsed) (i : nat) (cs : ClientState) :
  parse_client_states timeout_sec t_load text = Some ps ->
  find_client host pid' ps.(client_states) = Some (i, cs) ->
  cs.(is_granted) = true \/ cs.(is_write_lock) <> is_write ->
  lock_iteration timeout_sec host pid' is_write t_load t_req u1 u2 dump_result errno0 (Some text)
  = Some (Loop_error ENOTSUP, Some text, ENOTSUP).
Proof.
  intros Hparse Hfind Hconf.
  unfold lock_iteration, loaded_text. rewrite Hparse.
  assert (Hreq : request_lock host pid' is_write t_req dump_result ps
                 = mkEngine (Engine_error ENOTSUP) ps.(client_states) None).
  { unfold request_lock. rewrite Hfind.
    replace (is_granted cs || negb (Bool.eqb (is_write_lock cs) is_write)) with true;
      [reflexivity|].
    destruct Hconf as [-> | Hne]; [reflexivity|].
    destruct (is_write_lock cs), is_write; cbn;
      first [rewrite orb_true_r; reflexivity | exfalso; congruence]. }
  rewrite Hreq. cbn [eng_result eng_write]. rewrite exclusive_unlock_spec. reflexivity.
Qed.

Lemma acquire_conflict_unsupported_witness :
  parse_client_states 10 5 ("host1 100 R G 5" ++ nl)%string
    = Some (mkParsed [mkClientState false true 5 "host1" "100"]
                     (Some (mkClientState false true 5 "host1" "100")) false) /\
  find_client "host1" "100" [mkClientState false true 5 "host1" "100"]
    = Some (0%nat, mkClientState false true 5 "host1" "100") /\
  lock_iteration 10 "host1" "100" true 5 5 None None Dump_ok 0 (Some ("host1 100 R G 5" ++ nl)%string)
    = Some (Loop_error ENOTSUP, Some ("host1 100 R G 5" ++ nl)%string, ENOTSUP).
Proof.
  split; [vm_compute; reflexivity|]. split; [vm_compute; reflexivity|].
  apply (acquire_conflict_unsupported 10 "host1" "100" true 5 5 None None Dump_ok 0
           ("host1 100 R G 5" ++ nl)%string
           (mkParsed [mkClientState false true 5 "host1" "100"]
                     (Some (mkClientState false true 5 "host1" "100")) false)
           0%nat (mkClientState false true 5 "host1" "100")).
  - vm_compute. reflexivity.
  - vm_compute. reflexivity.
  - left. reflexivity.
Defined.

(** C6.  A release by [host1 100] returns success but does not
    remove its entry: alone in the state it is written back unchanged, and
    followed by [host1 200] the entries shift down while the count stays, so
    [host1 200] is written twice ([n_client_states] is not decremented). *)
Theorem release_keeps_entry_count :
  unlock_iteration 10 "host1" "100" 5 None None Dump_ok 0 (Some ("host1 100 R G 5" ++ nl)%string)
    = Some (Loop_return, Some ("host1 100 R G 5" ++ nl)%string, 0) /\
  unlock_iteration 10 "host1" "100" 5 None None Dump_ok 0
    (Some ("host1 100 R G 5" ++ nl ++ "host1 200 R G 5" ++ nl)%string)
    = Some (Loop_return, Some ("host1 200 R G 5" ++ nl ++ "host1 200 R G 5" ++ nl)%string, 0).
Proof. split; vm_compute; reflexivity. Qed.

(** C7.  Both unlinks fail and [errno] is 0 on entry: the [errno]
    reported is that of the second unlink (2), not that of the first
    failure (13). *)
Lemma exclusive_unlock_reports_last_failure :
  exclusive_unlock (Some 13) (Some 2) (mkSys 0 [])
    = (-1, mkSys 2 [Lockfile; PrivateFile]) /\
  (snd (exclusive_unlock (Some 13) (Some 2) (mkSys 0 []))).(sys_errno) <> 13.
Proof. split; [vm_compute; reflexivity | vm_compute; discriminate]. Qed.

(** C8.  A serialized state holding an entry that is stale at the
    time of the load does not survive [dump_client_states] after
    [parse_client_states]: the entry is reaped. *)
Lemma roundtrip_drops_stale_entry :
  reserialize 10 20 (dump_client_states [mkClientState false true 0 "host1" "100"])
  <> Some (dump_client_states [mkClientState false true 0 "host1" "100"]).
Proof. vm_compute. discriminate. Qed.

(** C8, as amended.  For a list of entries whose host and pid are non-empty
    and hold no space or line break, and that are all fresh at the time of the
    load ([time >= now - timeout_sec]), parsing the serialized text and
    serializing the result gives the same text back. *)
Theorem roundtrip_fresh_entries (timeout_sec now : Z) (l : list ClientState) :
  forallb wf_client_state l = true ->
  forallb (fun cs => now - timeout_sec <=? cs.(time)) l = true ->
  reserialize timeout_sec now (dump_client_states l) = Some (dump_client_states l).
Proof.
  intros Hwf Hfresh. unfold reserialize.
  destruct (parse_client_states_dump timeout_sec now l Hwf) as (g & ->).
  cbn. f_equal. f_equal. apply filter_all_fresh. exact Hfresh.
Qed.

Lemma roundtrip_fresh_entries_witness :
  forallb wf_client_state [mkClientState false true 15 "host1" "100";
                           mkClientState true false (-3) "host1" "200"] = true /\
  forallb (fun cs => 12 - 20 <=? cs.(time))
    [mkClientState false true 15 "host1" "100"; mkClientState true false (-3) "host1" "200"] = true /\
  reserialize 20 12 (dump_client_states [mkClientState false true 15 "host1" "100";
                                         mkClientState true false (-3) "host1" "200"])
  = Some (dump_client_states [mkClientState false true 15 "host1" "100";
                              mkClientState true false (-3) "host1" "200"]).
Proof.
  split; [vm_compute; reflexivity|]. split; [vm_compute; reflexivity|].
  apply roundtrip_fresh_entries; vm_compute; reflexivity.
Defined.

(** C9.  The caller's entry is pending with the requested mode and is
    granted now, so the state is dirty; the write of the state file fails
    ([fprintf] fails with [ENOSPC] before any byte is written): the engine
    returns the error, not [grant_now], and the file is left empty. *)
Lemma pending_request_renewed_dump_failure :
  request_lock "host1" "100" false 5 (Dump_write_failed 28 0)
    (mkParsed [mkClientState false false 3 "host1" "100"] None false)
  = mkEngine (Engine_error 28) [mkClientState false true 5 "host1" "100"] (Some ""%string) /\
  (request_lock "host1" "100" false 5 (Dump_write_failed 28 0)
     (mkParsed [mkClientState false false 3 "host1" "100"] None false)).(eng_result)
  <> Engine_ok 1.
Proof. split; [vm_compute; reflexivity | vm_compute; discriminate]. Qed.

(** C9, as amended.  When the caller's entry is pending with the requested
    mode, the engine sets its status to [grant_now] (flipping it to granted
    when [grant_now] holds) and its time to [now].  When the state is then
    dirty (already changed by the load, flipped, or renewed) it calls
    [dump_client_states] and returns [grant_now] if that succeeds, or the
    error of the failing call otherwise; when the state is not dirty it
    writes nothing and returns [grant_now]. *)
Theorem pending_request_renewed (host pid' : string) (is_write : bool) (now : Z)
    (dump_result : DumpOutcome) (ps : Parsed) (i : nat) (cs : ClientState) :
  find_client host pid' ps.(client_states) = Some (i, cs) ->
  cs.(is_granted) = false -> cs.(is_write_lock) = is_write ->
  let g := grant_now ps.(granted_state) is_write in
  let dirty := ps.(client_states_changed) || g || negb (cs.(time) =? now) in
  let states' := replace_nth i (set_time (set_is_granted cs g) now) ps.(client_states) in
  request_lock host pid' is_write now dump_result ps
  = if dirty then write_states dump_result states' (if g then 1 else 0)
    else mkEngine (Engine_ok (if g then 1 else 0)) states' None.
Proof.
  intros Hfind Hpend Hmode g dirty states'. subst dirty states'.
  unfold request_lock. rewrite Hfind, Hpend, Hmode, Bool.eqb_reflx. cbn [orb negb].
  fold g.
  destruct cs as [w gr t h p]. cbn [is_granted is_write_lock time] in *. subst gr w.
  unfold finish_request.
  destruct g, (Z.eqb_spec t now) as [->|Hne]; cbn; rewrite ?Z.eqb_refl;
    try (apply Z.eqb_neq in Hne; rewrite Hne); cbn;
    rewrite ?orb_true_r, ?orb_false_r; reflexivity.
Qed.

Lemma pending_request_renewed_witness :
  find_client "host1" "100" [mkClientState false false 3 "host1" "100"]
    = Some (0%nat, mkClientState false false 3 "host1" "100") /\
  request_lock "host1" "100" false 5 Dump_ok
    (mkParsed [mkClientState false false 3 "host1" "100"] None false)
  = mkEngine (Engine_ok 1) [mkClientState false true 5 "host1" "100"]
             (Some (dump_client_states [mkClientState false true 5 "host1" "100"])).
Proof.
  split; [vm_compute; reflexivity|].
  apply (pending_request_renewed "host1" "100" false 5 Dump_ok
           (mkParsed [mkClientState false false 3 "host1" "100"] None false)
           0%nat (mkClientState false false 3 "host1" "100")); reflexivity.
Defined.

(** C10.  A single process [host1 100] (timeout 10) takes a read lock at
    time 0 and releases it at time 5; the release leaves its entry in the
    file.  At time 20 it asks for a write lock: the stale granted entry is
    dropped but still counts as granted, so a pending write entry is
    persisted, and the next iteration fails at once because [creat] of the
    private file fails ([ENFILE]).  At time 21 the process releases:
    [remove_lock] finds its entry pending and [assert(client_state->is_granted)]
    fails.  Every call reads the clock in order and returns. *)
Theorem release_assertion_reachable :
  exists w env errno0 t',
    reach 10 "host1" "100" w /\ clock_after w.(w_clock) [env] = Some t' /\
    narwhal_unlock 10 "host1" "100" env w.(w_file) errno0 = None.
Proof.
  exists (mkWorld (Some ("host1 100 W P 20" ++ nl)%string) 20),
    (mkIterEnv None None 21 [(true, 21)] None 21 21 None None Dump_ok), 0, 21.
  split; [|split; vm_compute; reflexivity].
  apply (reach_lock _ _ _ (mkWorld (Some ("host1 100 R G 0" ++ nl)%string) 5) true
           [mkIterEnv None None 20 [(true, 20)] None 20 20 None None Dump_ok;
            mkIterEnv (Some ENFILE) None 20 [] None 20 20 None None Dump_ok]
           0 Call_failed (Some ("host1 100 W P 20" ++ nl)%string) ENFILE 20);
    [| vm_compute; reflexivity | vm_compute; reflexivity | discriminate].
  apply (reach_unlock _ _ _ (mkWorld (Some ("host1 100 R G 0" ++ nl)%string) 0)
           (mkIterEnv None None 5 [(true, 5)] None 5 5 None None Dump_ok)
           0 Call_ok (Some ("host1 100 R G 0" ++ nl)%string) 0 5);
    [| vm_compute; reflexivity | vm_compute; reflexivity | discriminate].
  apply (reach_lock _ _ _ (mkWorld None 0) false
           [mkIterEnv None None 0 [(true, 0)] None 0 0 None None Dump_ok]
           0 Call_ok (Some ("host1 100 R G 0" ++ nl)%string) 0 0);
    [apply reach_init | vm_compute; reflexivity | vm_compute; reflexivity | discriminate].
Qed.

(** * Further properties of the code *)

(** ** Identity *)

Lemma list_ascii_of_string_app (a b : string) :
  list_ascii_of_string (a ++ b) = list_ascii_of_string a ++ list_ascii_of_string b.
Proof. induction a as [|c a IH]; cbn; [reflexivity | now rewrite IH]. Qed.

Lemma length_list_ascii (s : string) : List.length (list_ascii_of_string s) = String.length s.
Proof. induction s as [|c s IH]; cbn; [reflexivity | now rewrite IH]. Qed.

Lemma is_sep_patch_char (c : ascii) : is_sep (patch_char c) = (char_code c =? 10).
Proof.
  unfold patch_char, is_sep. destruct (char_code c =? 32) eqn:E.
  - apply Z.eqb_eq in E. rewrite E. reflexivity.
  - rewrite E. reflexivity.
Qed.

Lemma patch_char_not_space (c : ascii) : (char_code (patch_char c) =? 32) = false.
Proof.
  unfold patch_char. destruct (char_code c =? 32) eqn:E; [reflexivity | exact E].
Qed.

(** [patch_host_name] keeps the length, leaves no space, and gives a valid
    state-file field exactly when the name is non-empty and has no line
    break (line breaks are not rewritten). *)
Theorem patch_host_name_field (h : string) :
  String.length (patch_host_name h) = String.length h /\
  forallb (fun c => negb (char_code c =? 32)) (list_ascii_of_string (patch_host_name h)) = true /\
  wf_field (patch_host_name h)
  = negb (String.eqb h EmptyString)
    && forallb (fun c => negb (char_code c =? 10)) (list_ascii_of_string h).
Proof.
  unfold patch_host_name. rewrite list_ascii_of_string_of_list_ascii.
  split; [|split].
  - rewrite <- !length_list_ascii, list_ascii_of_string_of_list_ascii. apply length_map.
  - apply forallb_forall. intros c Hc. apply in_map_iff in Hc as (c' & <- & _).
    now rewrite patch_char_not_space.
  - unfold wf_field, no_sep. rewrite list_ascii_of_string_of_list_ascii.
    f_equal.
    + destruct h; reflexivity.
    + induction (list_ascii_of_string h) as [|c l IH]; [reflexivity|].
      cbn. rewrite is_sep_patch_char, IH. reflexivity.
Qed.

(** Overrides set by [narwhal_hostname] and [narwhal_pid] are what every later
    operation uses: [init] keeps them, whether or not it already ran. *)
Theorem overrides_survive_init (host_override pid_override gethostname_result : string)
    (getpid_result : Z) (g : Globals) (id1 id2 : Identity) :
  narwhal_hostname host_override g.(identity) = Some id1 ->
  narwhal_pid pid_override id1 = Some id2 ->
  (init gethostname_result getpid_result (mkGlobals g.(did_init) id2)).(identity)
  = mkIdentity (Some (patch_host_name host_override)) (Some pid_override).
Proof.
  unfold narwhal_hostname, narwhal_pid.
  destruct host_override; [discriminate|]. intros H1. injection H1 as <-.
  destruct pid_override; [discriminate|]. intros H2. injection H2 as <-.
  unfold init. destruct (did_init g); reflexivity.
Qed.

Lemma overrides_survive_init_witness :
  narwhal_hostname "my host" (mkIdentity None None)
    = Some (mkIdentity (Some "my_host"%string) None) /\
  narwhal_pid "42" (mkIdentity (Some "my_host"%string) None)
    = Some (mkIdentity (Some "my_host"%string) (Some "42"%string)) /\
  (init "other" 7 (mkGlobals false (mkIdentity (Some "my_host"%string) (Some "42"%string)))).(identity)
    = mkIdentity (Some (patch_host_name "my host")) (Some "42"%string).
Proof.
  split; [vm_compute; reflexivity|]. split; [vm_compute; reflexivity|].
  apply (overrides_survive_init "my host" "42" "other" 7 (mkGlobals false (mkIdentity None None))
           (mkIdentity (Some "my_host"%string) None)); vm_compute; reflexivity.
Defined.

Lemma substring_length_le (n : nat) (s : string) : (String.length (substring 0 n s) <= n)%nat.
Proof.
  revert s. induction n as [|n IH]; intros s; [destruct s; cbn; lia|].
  destruct s as [|c s]; cbn; [lia|]. specialize (IH s). lia.
Qed.

(** Without overrides, the first [init] takes the host name from
    [gethostname], cut to at most 1023 characters and with no space left, and
    the pid from [getpid] as a decimal string that is a valid state-file field
    and that [atoll] reads back as the process id. *)
Theorem default_identity (gethostname_result : string) (getpid_result : Z) :
  let id := (init gethostname_result getpid_result (mkGlobals false (mkIdentity None None))).(identity) in
  id = mkIdentity (Some (patch_host_name (substring 0 1023 gethostname_result)))
                  (Some (show_Z getpid_result)) /\
  (String.length (patch_host_name (substring 0 1023 gethostname_result)) <= 1023)%nat /\
  forallb (fun c => negb (char_code c =? 32))
    (list_ascii_of_string (patch_host_name (substring 0 1023 gethostname_result))) = true /\
  wf_field (show_Z getpid_result) = true /\
  atoll (show_Z getpid_result) = getpid_result.
Proof.
  cbn zeta. split; [reflexivity|].
  destruct (patch_host_name_field (substring 0 1023 gethostname_result)) as (Hlen & Hsp & _).
  split; [rewrite Hlen; apply substring_length_le|]. split; [exact Hsp|].
  split; [|apply atoll_show_Z].
  destruct (no_sep_show_Z getpid_result) as [Hs Hne].
  unfold wf_field. rewrite Hs, andb_true_r.
  destruct (show_Z getpid_result); [contradiction | reflexivity].
Qed.

(** ** Paths *)

Lemma string_app_cancel_l (a b c : string) : (a ++ b = a ++ c)%string -> b = c.
Proof. induction a as [|x a IH]; cbn; [auto | intros H; injection H; auto]. Qed.

Lemma has_dot_app (a b : string) : has_dot (a ++ b) = has_dot a || has_dot b.
Proof. unfold has_dot. rewrite list_ascii_of_string_app. apply existsb_app. Qed.

(** The private file of any process is neither the lockfile nor the state
    file of the same lockdir: its name holds a dot, theirs do not. *)
Theorem private_path_distinct (lockdir host pid' : string) :
  private_path lockdir host pid' <> lockfile_path lockdir /\
  private_path lockdir host pid' <> state_path lockdir /\
  lockfile_path lockdir <> state_path lockdir.
Proof.
  unfold private_path, lockfile_path, state_path. cbn [format_path].
  split; [|split]; intros H; apply string_app_cancel_l in H; cbn in H;
    try discriminate; injection H as H;
    apply (f_equal has_dot) in H; rewrite has_dot_app in H; cbn in H;
    rewrite orb_true_r in H; discriminate.
Qed.

(** ** Taking the mutex *)

Lemma spin_link_held (D : Z) (atts : list (bool * Z)) (k : nat) :
  spin_link D atts = (Spin_held, k) <->
  exists pre t post, atts = pre ++ (true, t) :: post /\ k = S (List.length pre) /\
                     Forall (before_deadline D) pre.
Proof.
  split.
  - revert k. induction atts as [|[l t] r IH]; intros k H; cbn in H; [discriminate|].
    destruct l.
    + injection H as <-. exists [], t, r. auto.
    + destruct (D <? t) eqn:Ht; [discriminate|].
      destruct (spin_link D r) as [o k'] eqn:E. injection H as -> <-.
      destruct (IH k' eq_refl) as (pre & t' & post & -> & -> & Hf).
      exists ((false, t) :: pre), t', post. split; [reflexivity|]. split; [reflexivity|].
      constructor; [|exact Hf]. split; [reflexivity|]. cbn. apply Z.ltb_ge. exact Ht.
  - intros (pre & t & post & -> & -> & Hf). induction Hf as [|[l ta] pre [Hl Hta] Hf IH].
    + reflexivity.
    + cbn in Hl, Hta. subst l. cbn. apply Z.ltb_ge in Hta. rewrite Hta, IH. reflexivity.
Qed.

Lemma spin_link_timeout (D : Z) (atts : list (bool * Z)) (k : nat) :
  spin_link D atts = (Spin_timeout, k) <->
  exists pre t post, atts = pre ++ (false, t) :: post /\ D < t /\ k = S (List.length pre) /\
                     Forall (before_deadline D) pre.
Proof.
  split.
  - revert k. induction atts as [|[l t] r IH]; intros k H; cbn in H; [discriminate|].
    destruct l; [discriminate|].
    destruct (D <? t) eqn:Ht.
    + injection H as <-. exists [], t, r. apply Z.ltb_lt in Ht. auto.
    + destruct (spin_link D r) as [o k'] eqn:E. injection H as -> <-.
      destruct (IH k' eq_refl) as (pre & t' & post & -> & Hlt & -> & Hf).
      exists ((false, t) :: pre), t', post. split; [reflexivity|]. split; [exact Hlt|].
      split; [reflexivity|].
      constructor; [|exact Hf]. split; [reflexivity|]. cbn. apply Z.ltb_ge. exact Ht.
  - intros (pre & t & post & -> & Hlt & -> & Hf). induction Hf as [|[l ta] pre [Hl Hta] Hf IH].
    + cbn. apply Z.ltb_lt in Hlt. rewrite Hlt. reflexivity.
    + cbn in Hl, Hta. subst l. cbn. apply Z.ltb_ge in Hta. rewrite Hta, IH. reflexivity.
Qed.

(** [exclusive_lock] takes the mutex exactly when [creat] and [close] of the
    private file succeed and some [link] succeeds while every earlier failed
    attempt was followed by a clock reading within [now0 + timeout_sec]; the
    number of [link] calls is the position of that successful attempt. *)
Theorem exclusive_lock_held_iff (creat_result close_result : option Z) (timeout_sec now0 : Z)
    (attempts : list (bool * Z)) (k : nat) (created : bool) :
  exclusive_lock creat_result close_result timeout_sec now0 attempts = (Mutex_held, k, created) <->
  creat_result = None /\ close_result = None /\ created = true /\
  exists pre t post, attempts = pre ++ (true, t) :: post /\ k = S (List.length pre) /\
                     Forall (before_deadline (now0 + timeout_sec)) pre.
Proof.
  unfold exclusive_lock. split.
  - destruct creat_result; [discriminate|]. destruct close_result; [discriminate|].
    destruct (spin_link (now0 + timeout_sec) attempts) as [o k'] eqn:E.
    destruct o; try discriminate. intros H; injection H as -> <-.
    repeat split; auto. apply spin_link_held. exact E.
  - intros (-> & -> & -> & Hs). apply spin_link_held in Hs. rewrite Hs. reflexivity.
Qed.

(** [exclusive_lock] fails in one of two ways.  Either [creat] or [close] of
    the private file fails: no [link] is tried and [errno] is that call's
    (the private file exists after a failed [close]).  Or some failed [link]
    is followed by a clock reading past [now0 + timeout_sec], all earlier
    readings being within it: [errno] is [ETIMEDOUT] and the private file is
    left in place. *)
Theorem exclusive_lock_failed_iff (creat_result close_result : option Z) (timeout_sec now0 : Z)
    (attempts : list (bool * Z)) (e : Z) (k : nat) (created : bool) :
  exclusive_lock creat_result close_result timeout_sec now0 attempts = (Mutex_failed e, k, created) <->
  (k = 0%nat /\ ((creat_result = Some e /\ created = false) \/
                 (creat_result = None /\ close_result = Some e /\ created = true))) \/
  (creat_result = None /\ close_result = None /\ created = true /\ e = ETIMEDOUT /\
   exists pre t post, attempts = pre ++ (false, t) :: post /\ now0 + timeout_sec < t /\
                      k = S (List.length pre) /\ Forall (before_deadline (now0 + timeout_sec)) pre).
Proof.
  unfold exclusive_lock. split.
  - destruct creat_result as [c|].
    + intros H; injection H as -> <- <-. left. auto.
    + destruct close_result as [c|].
      * intros H; injection H as -> <- <-. left. auto.
      * destruct (spin_link (now0 + timeout_sec) attempts) as [o k'] eqn:E.
        destruct o; try discriminate. intros H; injection H as <- <- <-.
        right. repeat split; auto. apply spin_link_timeout. exact E.
  - intros [(-> & [(-> & ->) | (-> & -> & ->)]) | (-> & -> & -> & -> & Hs)]; try reflexivity.
    apply spin_link_timeout in Hs. rewrite Hs. reflexivity.
Qed.

(** [exclusive_unlock] unlinks the lockfile, then the private file, whatever
    their outcomes; it returns [-1] exactly when one of them fails.  [errno]
    on exit is the [errno] on entry when that is non-zero; otherwise it is
    the error of the private-file unlink if that failed, else the error of
    the lockfile unlink if that failed, else 0: when both fail, the second
    error replaces the first. *)
Theorem exclusive_unlock_errors (u_lockfile u_private : option Z) (s : Sys) :
  let '(r, s') := exclusive_unlock u_lockfile u_private s in
  s'.(sys_unlinked) = s.(sys_unlinked) ++ [Lockfile; PrivateFile] /\
  (r = -1 <-> (u_lockfile <> None \/ u_private <> None)) /\
  (r = 0 <-> (u_lockfile = None /\ u_private = None)) /\
  s'.(sys_errno) = (if s.(sys_errno) =? 0
                    then match u_private, u_lockfile with
                         | Some e, _ => e | None, Some e => e | None, None => 0 end
                    else s.(sys_errno)).
Proof.
  rewrite exclusive_unlock_spec. cbn [sys_unlinked sys_errno].
  destruct u_lockfile as [a|], u_private as [b|];
    (split; [reflexivity|]); (split; [|split; [|reflexivity]]); split; intros H;
    try discriminate; try reflexivity;
    try (left; discriminate); try (right; discriminate);
    try (destruct H; discriminate);
    try (destruct H as [H|H]; exfalso; apply H; reflexivity);
    try (split; reflexivity).
Qed.

(** ** The request engine *)

Lemma find_client_some (host pid' : string) (l : list ClientState) (i : nat) (cs : ClientState) :
  find_client host pid' l = Some (i, cs) ->
  exists pre post, l = pre ++ cs :: post /\ List.length pre = i /\
                   same_client host pid' cs = true /\
                   forallb (fun c => negb (same_client host pid' c)) pre = true.
Proof.
  revert i. induction l as [|c l IH]; intros i H; cbn in H; [discriminate|].
  destruct (same_client host pid' c) eqn:Ec.
  - injection H as <- <-. exists [], l. auto.
  - destruct (find_client host pid' l) as [[j c']|] eqn:E; cbn in H; [|discriminate].
    injection H as <- <-. destruct (IH j eq_refl) as (pre & post & -> & <- & Hs & Hp).
    exists (c :: pre), post. cbn. rewrite Ec, Hp. auto.
Qed.

Lemma find_client_none (host pid' : string) (l : list ClientState) :
  find_client host pid' l = None ->
  forallb (fun c => negb (same_client host pid' c)) l = true.
Proof.
  induction l as [|c l IH]; intros H; [reflexivity|]. cbn in H |- *.
  destruct (same_client host pid' c); [discriminate|].
  destruct (find_client host pid' l); [discriminate|]. cbn. auto.
Qed.

Lemma find_client_app (host pid' : string) (pre post : list ClientState) (x : ClientState) :
  forallb (fun c => negb (same_client host pid' c)) pre = true ->
  same_client host pid' x = true ->
  find_client host pid' (pre ++ x :: post) = Some (List.length pre, x).
Proof.
  intros Hp Hx. induction pre as [|c pre IH]; cbn in *.
  - now rewrite Hx.
  - apply andb_prop in Hp as [Hc Hp]. apply negb_true_iff in Hc. rewrite Hc, IH by exact Hp.
    reflexivity.
Qed.

Lemma replace_nth_app {A} (pre post : list A) (x y : A) :
  replace_nth (List.length pre) y (pre ++ x :: post) = pre ++ y :: post.
Proof. induction pre as [|a pre IH]; cbn; [reflexivity | now rewrite IH]. Qed.

Lemma same_client_self (host pid' : string) (w g : bool) (t : Z) :
  same_client host pid' (mkClientState w g t host pid') = true.
Proof. unfold same_client. cbn. now rewrite !String.eqb_refl. Qed.

Lemma finish_request_states (d : DumpOutcome) (st : list ClientState) (changed g : bool) :
  (finish_request d st changed g).(eng_states) = st.
Proof. unfold finish_request, write_states. destruct changed, d; reflexivity. Qed.

Lemma finish_request_ok_result (st : list ClientState) (changed g : bool) :
  (finish_request Dump_ok st changed g).(eng_result) = Engine_ok (if g then 1 else 0).
Proof. unfold finish_request, write_states. destruct changed; reflexivity. Qed.

Lemma finish_request_ok (d : DumpOutcome) (st : list ClientState) (changed g : bool) (v : Z) :
  (finish_request d st changed g).(eng_result) = Engine_ok v ->
  finish_request d st changed g = finish_request Dump_ok st changed g.
Proof.
  unfold finish_request, write_states. destruct changed; [|reflexivity].
  destruct d; cbn; [reflexivity | discriminate | discriminate].
Qed.

(** A call that returns a value went through a successful write, if any. *)
Lemma request_lock_ok_dump (host pid' : string) (is_write : bool) (now : Z)
    (d : DumpOutcome) (ps : Parsed) (v : Z) :
  (request_lock host pid' is_write now d ps).(eng_result) = Engine_ok v ->
  request_lock host pid' is_write now d ps = request_lock host pid' is_write now Dump_ok ps.
Proof.
  unfold request_lock.
  destruct (find_client host pid' (client_states ps)) as [[i cs]|].
  - destruct (is_granted cs || negb (Bool.eqb (is_write_lock cs) is_write)); [reflexivity|].
    apply finish_request_ok.
  - apply finish_request_ok.
Qed.

(** A successful grant: the caller's first entry is granted with the requested
    mode and the current time, and the buffer is written out. *)
Lemma request_lock_granted (host pid' : string) (is_write : bool) (now : Z)
    (d : DumpOutcome) (ps : Parsed) (v : Z) :
  (request_lock host pid' is_write now d ps).(eng_result) = Engine_ok v -> v <> 0 ->
  exists i cs,
    (request_lock host pid' is_write now d ps).(eng_write)
      = Some (dump_client_states (request_lock host pid' is_write now d ps).(eng_states)) /\
    find_client host pid' (request_lock host pid' is_write now d ps).(eng_states) = Some (i, cs) /\
    cs.(is_granted) = true /\ cs.(is_write_lock) = is_write /\ cs.(time) = now.
Proof.
  intros Hr. pose proof (request_lock_ok_dump host pid' is_write now d ps v Hr) as E.
  rewrite E in Hr |- *. clear E. revert Hr.
  unfold request_lock.
  destruct (find_client host pid' (client_states ps)) as [[i cs]|] eqn:Ef.
  - apply find_client_some in Ef as (pre & post & Hl & Hi & Hs & Hpre).
    destruct (is_granted cs || negb (Bool.eqb (is_write_lock cs) is_write)) eqn:Ec;
      [cbn; discriminate|].
    apply orb_false_iff in Ec as [_ Ew]. apply negb_false_iff, Bool.eqb_prop in Ew.
    destruct (grant_now (granted_state ps) is_write);
      [|rewrite finish_request_ok_result; intros H Hv; injection H as <-; contradiction].
    intros _ _. rewrite orb_true_r, Hl, <- Hi, replace_nth_app.
    destruct cs as [w g t h p]. unfold same_client in Hs. cbn in Hs, Ew |- *.
    apply andb_prop in Hs as [Hp Hh]. apply String.eqb_eq in Hp, Hh. subst.
    destruct (t =? now) eqn:Et; cbn.
    + apply Z.eqb_eq in Et. subst. eexists; eexists. split; [reflexivity|].
      split; [apply find_client_app; [exact Hpre | apply same_client_self]|]. auto.
    + eexists; eexists. split; [reflexivity|].
      split; [apply find_client_app; [exact Hpre | apply same_client_self]|]. auto.
  - apply find_client_none in Ef.
    destruct (grant_now (granted_state ps) is_write);
      [|rewrite finish_request_ok_result; intros H Hv; injection H as <-; contradiction].
    intros _ _. cbn. eexists; eexists. split; [reflexivity|].
    split; [apply find_client_app; [exact Ef | apply same_client_self]|]. auto.
Qed.

(** [request_lock] never touches the entries of other processes: the entries
    that are not the caller's are those loaded, in the same order, whatever
    the outcome, and whether or not the state file is written successfully. *)
Theorem request_lock_keeps_others (host pid' : string) (is_write : bool) (now : Z)
    (dump_result : DumpOutcome) (ps : Parsed) :
  filter (fun cs => negb (same_client host pid' cs))
         (request_lock host pid' is_write now dump_result ps).(eng_states)
  = filter (fun cs => negb (same_client host pid' cs)) ps.(client_states).
Proof.
  unfold request_lock.
  destruct (find_client host pid' (client_states ps)) as [[i cs]|] eqn:Ef.
  - apply find_client_some in Ef as (pre & post & Hl & Hi & Hs & Hpre).
    destruct (is_granted cs || negb (Bool.eqb (is_write_lock cs) is_write)); [reflexivity|].
    rewrite finish_request_states, Hl, <- Hi, replace_nth_app, !filter_app.
    destruct cs as [w g t h p].
    unfold same_client in Hs |- *. cbn in Hs.
    unfold set_is_granted, set_time. cbn.
    destruct (grant_now (granted_state ps) is_write); cbn; destruct (t =? now);
      cbn; rewrite Hs; reflexivity.
  - rewrite finish_request_states, filter_app. cbn.
    rewrite same_client_self, app_nil_r. reflexivity.
Qed.

(** ** One iteration of the retry loops *)

Lemma lock_iteration_return (timeout_sec : Z) (host pid' : string) (is_write : bool)
    (t_load t_req : Z) (u_lockfile u_private : option Z) (d : DumpOutcome) (errno0 : Z)
    (file file' : option string) (e : Z) :
  lock_iteration timeout_sec host pid' is_write t_load t_req u_lockfile u_private d errno0 file
    = Some (Loop_return, file', e) ->
  exists ps v,
    parse_client_states timeout_sec t_load (loaded_text file) = Some ps /\
    (request_lock host pid' is_write t_req d ps).(eng_result) = Engine_ok v /\ v <> 0 /\
    file' = Some (match (request_lock host pid' is_write t_req d ps).(eng_write) with
                  | Some s => s | None => loaded_text file end).
Proof.
  unfold lock_iteration.
  destruct (parse_client_states timeout_sec t_load (loaded_text file)) as [ps|]; [|discriminate].
  destruct (eng_result (request_lock host pid' is_write t_req d ps)) as [en|v] eqn:Er;
    destruct (exclusive_unlock u_lockfile u_private _) as [ur s]; intros H.
  - injection H; discriminate.
  - destruct (ur <? 0); [injection H; discriminate|].
    destruct (v =? 0) eqn:Ev; [injection H; discriminate|].
    injection H as <- _. exists ps, v. repeat split; auto. apply Z.eqb_neq. exact Ev.
Qed.

Lemma lock_iteration_granted (timeout_sec : Z) (host pid' : string) (is_write : bool)
    (t_load t_req : Z) (u_lockfile u_private : option Z) (d : DumpOutcome) (errno0 : Z)
    (file file' : option string) (e : Z) :
  lock_iteration timeout_sec host pid' is_write t_load t_req u_lockfile u_private d errno0 file
    = Some (Loop_return, file', e) ->
  exists l i cs, file' = Some (dump_client_states l) /\ find_client host pid' l = Some (i, cs) /\
    cs.(is_granted) = true /\ cs.(is_write_lock) = is_write /\ cs.(time) = t_req.
Proof.
  intros H. apply lock_iteration_return in H as (ps & v & _ & Hr & Hv & ->).
  destruct (request_lock_granted host pid' is_write t_req d ps v Hr Hv)
    as (i & cs & Hw & Hf & Hcs).
  rewrite Hw. exists (request_lock host pid' is_write t_req d ps).(eng_states), i, cs.
  split; [reflexivity|]. split; [exact Hf | exact Hcs].
Qed.

(** When [narwhal_read_lock] or [narwhal_write_lock] returns 0, the run splits
    into iterations [pre] that all went round the loop, followed by the
    iteration [env] that returned: it held the mutex, loaded the state, and
    the state file it left holds the caller's entry granted in the requested
    mode, stamped with that iteration's [time(NULL)] reading [ie_t_req]. *)
Theorem narwhal_lock_ok_granted (timeout_sec : Z) (host pid' : string) (is_write : bool)
    (envs : list IterEnv) (file : option string) (errno0 : Z) (file' : option string) (e : Z) :
  narwhal_lock timeout_sec host pid' is_write envs file errno0 = Some (Call_ok, file', e) ->
  exists pre env post file_k errno_k,
    envs = pre ++ env :: post /\
    narwhal_lock timeout_sec host pid' is_write pre file errno0 = Some (Call_running, file_k, errno_k) /\
    fst (fst (exclusive_lock env.(ie_creat) env.(ie_close) timeout_sec env.(ie_now0)
                             env.(ie_attempts))) = Mutex_held /\
    env.(ie_load_error) = None /\
    lock_iteration timeout_sec host pid' is_write env.(ie_t_load) env.(ie_t_req)
      env.(ie_u_lockfile) env.(ie_u_private) env.(ie_dump) errno_k file_k
      = Some (Loop_return, file', e) /\
    exists l i cs, file' = Some (dump_client_states l) /\
      find_client host pid' l = Some (i, cs) /\
      cs.(is_granted) = true /\ cs.(is_write_lock) = is_write /\ cs.(time) = env.(ie_t_req).
Proof.
  revert file errno0. induction envs as [|env rest IH]; intros file errno0 H; cbn in H;
    [discriminate|].
  destruct (exclusive_lock (ie_creat env) (ie_close env) timeout_sec (ie_now0 env)
              (ie_attempts env)) as [[[|en|] k] c] eqn:Ex; try discriminate.
  destruct (ie_load_error env) eqn:Ele; [discriminate|].
  destruct (lock_iteration timeout_sec host pid' is_write (ie_t_load env) (ie_t_req env)
              (ie_u_lockfile env) (ie_u_private env) (ie_dump env) errno0 file)
    as [[[[en| |] f] e']|] eqn:Ei; try discriminate.
  - injection H as -> ->.
    exists [], env, rest, file, errno0.
    split; [reflexivity|]. split; [reflexivity|]. split; [rewrite Ex; reflexivity|].
    split; [exact Ele|]. split; [exact Ei|].
    exact (lock_iteration_granted _ _ _ _ _ _ _ _ _ _ _ _ _ Ei).
  - destruct (IH f e' H) as (pre & env' & post & fk & ek & Hs & Hpre & R).
    exists (env :: pre), env', post, fk, ek.
    split; [rewrite Hs; reflexivity|]. split; [|exact R].
    cbn. rewrite Ex, Ele, Ei. exact Hpre.
Qed.

Lemma narwhal_lock_ok_granted_witness :
  narwhal_lock 10 "host1" "100" true
    [mkIterEnv None None 5 [(true, 5)] None 5 5 None None Dump_ok;
     mkIterEnv None None 6 [(true, 7)] None 7 8 None None Dump_ok] None 0
  = Some (Call_ok, Some ("host1 100 W G 5" ++ nl)%string, 0) /\
  exists pre env post file_k errno_k,
    [mkIterEnv None None 5 [(true, 5)] None 5 5 None None Dump_ok;
     mkIterEnv None None 6 [(true, 7)] None 7 8 None None Dump_ok] = pre ++ env :: post /\
    narwhal_lock 10 "host1" "100" true pre None 0 = Some (Call_running, file_k, errno_k) /\
    fst (fst (exclusive_lock env.(ie_creat) env.(ie_close) 10 env.(ie_now0)
                             env.(ie_attempts))) = Mutex_held /\
    env.(ie_load_error) = None /\
    lock_iteration 10 "host1" "100" true env.(ie_t_load) env.(ie_t_req)
      env.(ie_u_lockfile) env.(ie_u_private) env.(ie_dump) errno_k file_k
      = Some (Loop_return, Some ("host1 100 W G 5" ++ nl)%string, 0) /\
    exists l i cs, Some ("host1 100 W G 5" ++ nl)%string = Some (dump_client_states l) /\
      find_client "host1" "100" l = Some (i, cs) /\
      cs.(is_granted) = true /\ cs.(is_write_lock) = true /\ cs.(time) = env.(ie_t_req).
Proof.
  assert (H : narwhal_lock 10 "host1" "100" true
                [mkIterEnv None None 5 [(true, 5)] None 5 5 None None Dump_ok;
                 mkIterEnv None None 6 [(true, 7)] None 7 8 None None Dump_ok] None 0
              = Some (Call_ok, Some ("host1 100 W G 5" ++ nl)%string, 0))
    by (vm_compute; reflexivity).
  split; [exact H|].
  exact (narwhal_lock_ok_granted 10 "host1" "100" true
           [mkIterEnv None None 5 [(true, 5)] None 5 5 None None Dump_ok;
            mkIterEnv None None 6 [(true, 7)] None 7 8 None None Dump_ok] None 0
           (Some ("host1 100 W G 5" ++ nl)%string) 0 H).
Defined.

(** ** Who holds a grant after the load *)

Lemma parse_field_no_grant (fft : Z) (ps ps' : PState) (tok : string) :
  parse_field fft ps tok = Some ps' -> no_grant_inv ps -> no_grant_inv ps'.
Proof.
  destruct ps as [kept slot granted changed field]. unfold parse_field, no_grant_inv.
  intros H Hinv.
  repeat match goal with
         | H : match ?x with _ => _ end = Some _ |- _ => destruct x eqn:?
         | H : (if ?b then _ else _) = Some _ |- _ => destruct b eqn:?
         end;
    try discriminate; injection H as <-; cbn in *; intros Hg; try discriminate;
    destruct (Hinv Hg) as [Hk Hs]; split; try exact Hk; try (intros; lia);
    try (intros; reflexivity).
  constructor; [destruct slot; cbn in *; apply Hs; lia | exact Hk].
Qed.

Lemma parse_fields_no_grant (fft : Z) (toks : list string) :
  forall ps ps', parse_fields fft ps toks = Some ps' -> no_grant_inv ps -> no_grant_inv ps'.
Proof.
  induction toks as [|t toks IH]; intros ps ps' H Hi.
  - injection H as <-. exact Hi.
  - cbn in H. destruct (parse_field fft ps t) as [ps1|] eqn:E; [|discriminate].
    exact (IH ps1 ps' H (parse_field_no_grant fft ps ps1 t E Hi)).
Qed.

Lemma parse_no_grant (timeout_sec now : Z) (text : string) (ps : Parsed) :
  parse_client_states timeout_sec now text = Some ps -> ps.(granted_state) = None ->
  Forall (fun cs => cs.(is_granted) = false) ps.(client_states).
Proof.
  unfold parse_client_states.
  destruct (parse_fields (now - timeout_sec) (mkPState [] empty_slot None false 0)
              (state_fields text)) as [[kept slot granted changed field]|] eqn:E;
    [|discriminate].
  intros H. injection H as <-. cbn. intros Hg.
  destruct granted; [discriminate|].
  apply parse_fields_no_grant in E; [|intros _; split; [constructor | cbn; intros; lia]].
  destruct (E eq_refl) as [Hk _]. apply Forall_rev. exact Hk.
Qed.

(** A write lock is granted only when no live entry of the loaded state file
    holds a grant: when [narwhal_write_lock]'s iteration returns 0, every
    entry the parser kept is pending. *)
Theorem write_granted_only_when_free (timeout_sec : Z) (host pid' : string)
    (t_load t_req : Z) (u_lockfile u_private : option Z) (dump_result : DumpOutcome)
    (errno0 : Z) (file file' : option string) (e : Z) :
  lock_iteration timeout_sec host pid' true t_load t_req u_lockfile u_private dump_result errno0 file
    = Some (Loop_return, file', e) ->
  exists ps, parse_client_states timeout_sec t_load (loaded_text file) = Some ps /\
             Forall (fun cs => cs.(is_granted) = false) ps.(client_states).
Proof.
  intros H. apply lock_iteration_return in H as (ps & v & Hp & Hr & Hv & _).
  exists ps. split; [exact Hp|]. apply (parse_no_grant _ _ _ _ Hp).
  assert (Hg : grant_now (granted_state ps) true = true).
  { pose proof (request_lock_ok_dump _ _ _ _ _ _ _ Hr) as E. rewrite E in Hr. clear E.
    unfold request_lock in Hr.
    destruct (find_client host pid' (client_states ps)) as [[i cs]|].
    - destruct (_ || _); [discriminate|]. rewrite finish_request_ok_result in Hr.
      destruct (grant_now (granted_state ps) true); [reflexivity|].
      injection Hr as <-. contradiction.
    - rewrite finish_request_ok_result in Hr.
      destruct (grant_now (granted_state ps) true); [reflexivity|].
      injection Hr as <-. contradiction. }
  destruct (granted_state ps); [discriminate | reflexivity].
Qed.

Lemma write_granted_only_when_free_witness :
  lock_iteration 10 "host2" "200" true 5 5 None None Dump_ok 0
    (Some ("host1 100 R P 5" ++ nl)%string)
    = Some (Loop_return, Some ("host1 100 R P 5" ++ nl ++ "host2 200 W G 5" ++ nl)%string, 0) /\
  exists ps, parse_client_states 10 5 (loaded_text (Some ("host1 100 R P 5" ++ nl)%string)) = Some ps /\
             Forall (fun cs => cs.(is_granted) = false) ps.(client_states).
Proof.
  split; [vm_compute; reflexivity|].
  apply (write_granted_only_when_free 10 "host2" "200" 5 5 None None Dump_ok 0
           (Some ("host1 100 R P 5" ++ nl)%string)
           (Some ("host1 100 R P 5" ++ nl ++ "host2 200 W G 5" ++ nl)%string) 0).
  vm_compute. reflexivity.
Defined.

(** ** Releasing *)

(** [remove_lock] on a buffer whose first entry of the caller is [cs]: the
    assertion fails when [cs] is pending; otherwise [cs] is taken out, the
    entries after it move down one slot, and the last entry is written twice
    since [n_client_states] is unchanged; then the buffer is written with
    [dump_client_states] and the call returns 0, or the error of the failing
    call of the write. *)
Theorem remove_lock_effect (host pid' : string) (dump_result : DumpOutcome) (ps : Parsed)
    (pre post : list ClientState) (cs : ClientState) :
  ps.(client_states) = pre ++ cs :: post ->
  forallb (fun c => negb (same_client host pid' c)) pre = true ->
  same_client host pid' cs = true ->
  remove_lock host pid' dump_result ps
  = if cs.(is_granted)
    then Some (write_states dump_result (pre ++ post ++ [last (cs :: post) cs]) 0)
    else None.
Proof.
  intros Hl Hpre Hcs. unfold remove_lock. rewrite Hl, find_client_app by assumption.
  destruct (is_granted cs); [|reflexivity].
  rewrite firstn_app, skipn_app, Nat.sub_diag, firstn_all, skipn_all, firstn_O, app_nil_r.
  reflexivity.
Qed.

Lemma remove_lock_effect_witness :
  client_states (mkParsed [mkClientState false true 5 "a" "1"; mkClientState false true 5 "b" "2";
                           mkClientState false true 5 "c" "3"] None false)
    = [mkClientState false true 5 "a" "1"] ++ mkClientState false true 5 "b" "2"
        :: [mkClientState false true 5 "c" "3"] /\
  remove_lock "b" "2" Dump_ok (mkParsed [mkClientState false true 5 "a" "1"; mkClientState false true 5 "b" "2";
                                 mkClientState false true 5 "c" "3"] None false)
  = if is_granted (mkClientState false true 5 "b" "2")
    then Some (write_states Dump_ok
                 ([mkClientState false true 5 "a" "1"] ++ [mkClientState false true 5 "c" "3"] ++
                  [last (mkClientState false true 5 "b" "2" :: [mkClientState false true 5 "c" "3"])
                        (mkClientState false true 5 "b" "2")]) 0)
    else None.
Proof.
  split; [reflexivity|].
  apply (remove_lock_effect "b" "2" Dump_ok
           (mkParsed [mkClientState false true 5 "a" "1"; mkClientState false true 5 "b" "2";
                      mkClientState false true 5 "c" "3"] None false)
           [mkClientState false true 5 "a" "1"] [mkClientState false true 5 "c" "3"]
           (mkClientState false true 5 "b" "2")); vm_compute; reflexivity.
Defined.

(** A release by a process with no live entry in the state file fails with
    [ENOTSUP] and leaves the file as it was loaded (a missing file is created
    empty), whatever the unlinks of [exclusive_unlock] do. *)
Theorem release_without_entry (timeout_sec : Z) (host pid' : string) (t_load : Z)
    (u_lockfile u_private : option Z) (dump_result : DumpOutcome) (errno0 : Z)
    (file : option string) (ps : Parsed) :
  parse_client_states timeout_sec t_load (loaded_text file) = Some ps ->
  find_client host pid' ps.(client_states) = None ->
  unlock_iteration timeout_sec host pid' t_load u_lockfile u_private dump_result errno0 file
  = Some (Loop_error ENOTSUP, Some (loaded_text file), ENOTSUP).
Proof.
  intros Hp Hf. unfold unlock_iteration, remove_lock. rewrite Hp, Hf.
  cbn [eng_result eng_write]. rewrite exclusive_unlock_spec. reflexivity.
Qed.

Lemma release_without_entry_witness :
  parse_client_states 10 5 (loaded_text None) = Some (mkParsed [] None false) /\
  find_client "host1" "100" (client_states (mkParsed [] None false)) = None /\
  unlock_iteration 10 "host1" "100" 5 (Some 2) None Dump_ok 0 None
  = Some (Loop_error ENOTSUP, Some (loaded_text None), ENOTSUP).
Proof.
  split; [vm_compute; reflexivity|]. split; [reflexivity|].
  apply (release_without_entry 10 "host1" "100" 5 (Some 2) None Dump_ok 0 None (mkParsed [] None false));
    [vm_compute | ]; reflexivity.
Defined.

(** ** An empty field ends the state file *)

Lemma split_fields_nonnil (s : string) (cur : list ascii) : split_fields s cur <> [].
Proof.
  revert cur. induction s as [|c s IH]; intros cur; cbn; [discriminate|].
  destruct (is_sep c); [discriminate | apply IH].
Qed.

Lemma split_fields_sep_app (a x : string) (s : ascii) (cur : list ascii) :
  is_sep s = true ->
  split_fields (a ++ String s x) cur
  = removelast (split_fields (a ++ String s EmptyString) cur) ++ split_fields x [].
Proof.
  intros Hs. revert cur. induction a as [|c a IH]; intros cur; cbn.
  - rewrite Hs. reflexivity.
  - destruct (is_sep c).
    + rewrite IH. cbn.
      destruct (split_fields (a ++ String s EmptyString) []) eqn:E;
        [exfalso; exact (split_fields_nonnil _ _ E) | reflexivity].
    + apply IH.
Qed.

Lemma take_nonempty_app_empty (l r : list string) :
  take_nonempty (l ++ EmptyString :: r) = take_nonempty l.
Proof.
  induction l as [|t l IH]; [reflexivity|]. destruct t; cbn; [reflexivity | now rewrite IH].
Qed.

Lemma state_fields_empty_field (a rest : string) (c : ascii) :
  (a = EmptyString \/ exists a' s, a = (a' ++ String s EmptyString)%string /\ is_sep s = true) ->
  is_sep c = true ->
  state_fields (a ++ String c rest) = state_fields a.
Proof.
  intros Ha Hc. unfold state_fields.
  destruct Ha as [-> | (a' & s & -> & Hs)].
  - cbn. rewrite Hc. reflexivity.
  - rewrite string_app_assoc. cbn [append].
    rewrite (split_fields_sep_app a' (String c rest) s [] Hs).
    set (L := removelast (split_fields (a' ++ String s EmptyString) [])).
    assert (E2 : split_fields (a' ++ String s EmptyString) [] = L ++ [EmptyString])
      by exact (split_fields_sep_app a' EmptyString s [] Hs).
    rewrite E2. cbn [split_fields]. rewrite Hc. cbn [rev string_of_list_ascii].
    rewrite !take_nonempty_app_empty. reflexivity.
Qed.

(** The parser stops at the first empty field: whatever follows two
    consecutive separators (an empty line, a double space, or a separator at
    the very start) is ignored, and is lost when the file is next written. *)
Theorem parse_stops_at_empty_field (timeout_sec now : Z) (a rest : string) (c : ascii) :
  (a = EmptyString \/ exists a' s, a = (a' ++ String s EmptyString)%string /\ is_sep s = true) ->
  is_sep c = true ->
  parse_client_states timeout_sec now (a ++ String c rest)
  = parse_client_states timeout_sec now a.
Proof.
  intros Ha Hc. unfold parse_client_states. rewrite state_fields_empty_field by assumption.
  reflexivity.
Qed.

Lemma parse_stops_at_empty_field_witness :
  (("host1 100 R G 5" ++ nl)%string = EmptyString \/
   exists a' s, ("host1 100 R G 5" ++ nl)%string = (a' ++ String s EmptyString)%string /\
                is_sep s = true) /\
  is_sep (ascii_of_nat 10) = true /\
  parse_client_states 10 5 (("host1 100 R G 5" ++ nl) ++ String (ascii_of_nat 10) "host2 200 W G 5")
  = parse_client_states 10 5 ("host1 100 R G 5" ++ nl).
Proof.
  assert (Ha : ("host1 100 R G 5" ++ nl)%string = EmptyString \/
     exists a' s, ("host1 100 R G 5" ++ nl)%string = (a' ++ String s EmptyString)%string /\
                  is_sep s = true).
  { right. exists "host1 100 R G 5"%string, (ascii_of_nat 10). split; reflexivity. }
  split; [exact Ha|]. split; [reflexivity|].
  apply (parse_stops_at_empty_field 10 5 ("host1 100 R G 5" ++ nl) "host2 200 W G 5"
           (ascii_of_nat 10)); [exact Ha | reflexivity].
Defined.

(** ** The state file under any number of processes *)

Lemma wf_client_state_same_id (a b : ClientState) :
  a.(host_name) = b.(host_name) -> a.(pid) = b.(pid) -> wf_client_state a = wf_client_state b.
Proof. unfold wf_client_state. intros -> ->. reflexivity. Qed.

Lemma request_lock_output (host pid' : string) (is_write : bool) (now : Z) (ps : Parsed) :
  forallb wf_client_state ps.(client_states) = true -> wf_field host = true -> wf_field pid' = true ->
  forallb wf_client_state (request_lock host pid' is_write now Dump_ok ps).(eng_states) = true /\
  ((request_lock host pid' is_write now Dump_ok ps).(eng_write) = None \/
   (request_lock host pid' is_write now Dump_ok ps).(eng_write)
   = Some (dump_client_states (request_lock host pid' is_write now Dump_ok ps).(eng_states))).
Proof.
  intros Hwf Hh Hp. unfold request_lock.
  destruct (find_client host pid' (client_states ps)) as [[i cs]|] eqn:Ef.
  - apply find_client_some in Ef as (pre & post & Hl & Hi & _ & _).
    destruct (is_granted cs || negb (Bool.eqb (is_write_lock cs) is_write)).
    + cbn. auto.
    + split.
      * rewrite finish_request_states.
        rewrite Hl, <- Hi, replace_nth_app. rewrite Hl in Hwf.
        rewrite forallb_app in Hwf |- *. cbn in Hwf |- *.
        apply andb_prop in Hwf as [H1 H2]. apply andb_prop in H2 as [H2 H3].
        rewrite H1, H3, andb_true_r.
        destruct cs as [w g t h p]. unfold wf_client_state in H2 |- *.
        destruct (grant_now (granted_state ps) is_write); cbn;
          destruct (_ =? now); cbn; rewrite ?andb_true_r; exact H2.
      * unfold finish_request, write_states.
        destruct (if _ =? _ then _ else _); cbn; auto.
  - split.
    + rewrite finish_request_states, forallb_app, Hwf. cbn.
      unfold wf_client_state. cbn. rewrite Hh, Hp. reflexivity.
    + cbn. auto.
Qed.

Lemma in_last {A} (l : list A) (d : A) : l <> [] -> In (last l d) l.
Proof.
  induction l as [|x l IH]; intros H; [contradiction|].
  destruct l as [|y l]; [left; reflexivity|].
  right. apply IH. discriminate.
Qed.

Lemma remove_lock_output (host pid' : string) (ps : Parsed) (e : Engine) :
  remove_lock host pid' Dump_ok ps = Some e ->
  forallb wf_client_state ps.(client_states) = true ->
  forallb wf_client_state e.(eng_states) = true /\
  (e.(eng_write) = None \/ e.(eng_write) = Some (dump_client_states e.(eng_states))).
Proof.
  unfold remove_lock. intros H Hwf.
  destruct (find_client host pid' (client_states ps)) as [[i cs]|].
  - destruct (is_granted cs); [|discriminate]. injection H as <-.
    unfold write_states. cbn [eng_states eng_write].
    split; [|auto].
    apply forallb_forall. intros x Hx. rewrite forallb_forall in Hwf. apply Hwf.
    rewrite <- (firstn_skipn i (client_states ps)). apply in_app_or in Hx as [Hx | Hx].
    + apply in_or_app. left. exact Hx.
    + apply in_or_app. right.
      destruct (skipn i (client_states ps)) as [|y r]; [contradiction|].
      unfold memmove_down in Hx. apply in_app_or in Hx as [Hx | [<- | []]]; [right; exact Hx|].
      apply in_last. discriminate.
  - injection H as <-. cbn. auto.
Qed.

Lemma serialized_parse (timeout_sec now : Z) (file : option string) :
  serialized_state file ->
  exists l g ch, parse_client_states timeout_sec now (loaded_text file) = Some (mkParsed l g ch) /\
                 forallb wf_client_state l = true.
Proof.
  intros [-> | (l & -> & Hl)].
  - exists [], None, false. split; [vm_compute; reflexivity | reflexivity].
  - destruct (parse_client_states_dump timeout_sec now l Hl) as [g Hp].
    exists (filter (is_fresh (now - timeout_sec)) l), g,
      (existsb (fun cs => negb (is_fresh (now - timeout_sec) cs)) l). split; [exact Hp|].
    apply forallb_forall. intros x Hx. apply filter_In in Hx as [Hx _].
    rewrite forallb_forall in Hl. exact (Hl x Hx).
Qed.

(** Whatever processes with valid host names and pids run the operations, in
    whatever order and at whatever times, as long as every write of the state
    file succeeds (the unlinks may fail), the state file is always the output
    of [dump_client_states] on well-formed entries (or still missing), so
    every later load parses it without a failed assertion. *)
Theorem reach_many_state (timeout_sec : Z) (file : option string) :
  reach_many timeout_sec file ->
  serialized_state file /\
  forall now, exists ps, parse_client_states timeout_sec now (loaded_text file) = Some ps.
Proof.
  assert (Hinv : reach_many timeout_sec file -> serialized_state file).
  { induction 1 as [
                   | file host pid' is_write t_load t_req u1 u2 errno0 step file' errno' Hr IH Hh Hp Hi
                   | file host pid' t_load u1 u2 errno0 step file' errno' Hr IH Hh Hp Hi].
    - left. reflexivity.
    - destruct (serialized_parse timeout_sec t_load file IH) as (l & g & ch & Hps & Hl).
      unfold lock_iteration in Hi. rewrite Hps in Hi.
      destruct (request_lock_output host pid' is_write t_req (mkParsed l g ch) Hl Hh Hp)
        as [Hwf Hw].
      destruct (exclusive_unlock _ _ _) as [ur s]. injection Hi as _ <- _.
      destruct Hw as [-> | ->].
      + destruct IH as [-> | (l0 & -> & Hl0)]; right; [exists []; auto | exists l0; auto].
      + right. eexists. split; [reflexivity | exact Hwf].
    - destruct (serialized_parse timeout_sec t_load file IH) as (l & g & ch & Hps & Hl).
      unfold unlock_iteration in Hi. rewrite Hps in Hi.
      destruct (remove_lock host pid' Dump_ok (mkParsed l g ch)) as [e|] eqn:Er; [|discriminate].
      destruct (remove_lock_output host pid' (mkParsed l g ch) e Er Hl) as [Hwf Hw].
      destruct (exclusive_unlock _ _ _) as [ur s]. injection Hi as _ <- _.
      destruct Hw as [-> | ->].
      + destruct IH as [-> | (l0 & -> & Hl0)]; right; [exists []; auto | exists l0; auto].
      + right. eexists. split; [reflexivity | exact Hwf]. }
  intros Hr. split; [exact (Hinv Hr)|]. intros now.
  destruct (serialized_parse timeout_sec now file (Hinv Hr)) as (l & g & ch & Hps & _).
  eexists. exact Hps.
Qed.

Lemma reach_many_state_witness :
  reach_many 10 (Some ("host1 100 W G 5" ++ nl)%string) /\
  serialized_state (Some ("host1 100 W G 5" ++ nl)%string) /\
  forall now, exists ps,
    parse_client_states 10 now (loaded_text (Some ("host1 100 W G 5" ++ nl)%string)) = Some ps.
Proof.
  assert (Hr : reach_many 10 (Some ("host1 100 W G 5" ++ nl)%string)).
  { apply (many_lock 10 None "host1" "100" true 5 5 None (Some 2) 0 (Loop_error 2)
             (Some ("host1 100 W G 5" ++ nl)%string) 2);
      [apply many_init | reflexivity | reflexivity | vm_compute; reflexivity]. }
  split; [exact Hr|].
  exact (reach_many_state 10 (Some ("host1 100 W G 5" ++ nl)%string) Hr).
Defined.

(** ** A failed load *)

(** When [exclusive_lock] succeeds but [load_client_states] fails with a
    non-zero [errno], [narwhal_read_lock] and [narwhal_write_lock] return [-1]
    with that [errno], whatever the unlinks of [exclusive_unlock] do, and the
    state file is left untouched. *)
Theorem narwhal_lock_load_error (timeout_sec : Z) (host pid' : string) (is_write : bool)
    (env : IterEnv) (rest : list IterEnv) (file : option string) (errno0 e : Z) (k : nat) :
  exclusive_lock env.(ie_creat) env.(ie_close) timeout_sec env.(ie_now0) env.(ie_attempts)
    = (Mutex_held, k, true) ->
  env.(ie_load_error) = Some e -> e <> 0 ->
  narwhal_lock timeout_sec host pid' is_write (env :: rest) file errno0
  = Some (Call_failed, file, e).
Proof.
  intros Hx He Hne. cbn. rewrite Hx, He, exclusive_unlock_spec. cbn.
  apply Z.eqb_neq in Hne. rewrite Hne. reflexivity.
Qed.

Lemma narwhal_lock_load_error_witness :
  exclusive_lock None None 10 0 [(true, 0)] = (Mutex_held, 1%nat, true) /\
  narwhal_lock 10 "host1" "100" true
    [mkIterEnv None None 0 [(true, 0)] (Some 13) 0 0 (Some 2) (Some 2) Dump_ok] None 0
  = Some (Call_failed, None, 13).
Proof.
  split; [reflexivity|].
  apply (narwhal_lock_load_error 10 "host1" "100" true
           (mkIterEnv None None 0 [(true, 0)] (Some 13) 0 0 (Some 2) (Some 2) Dump_ok) [] None 0 13 1);
    [reflexivity | reflexivity | discriminate].
Defined.
